(** * code2ascii: a shallow embedding of [main.cpp]

    The program prints a source file to the terminal, one line at a
    time, wrapping the spans recognised by a small catalogue of regular
    expressions in ANSI truecolor escape sequences.

    Layout of this development:
    - [Str]: the [std::string] operations the program uses;
    - [Regex]: the fragment of ECMAScript regular expressions that occurs
      in the catalogue, with a backtracking matcher and [regex_search];
    - [Highlighter]: [rgb], [HighlightRule], [getHighlightRules],
      [getFileExtension], [highlightAndPrintLine] and [main];
    - the theorems about them. *)

From Stdlib Require Import String Ascii List Arith Bool NArith ZArith Lia.
From Stdlib Require Import DecimalString DecimalZ.
Import ListNotations.

Local Open Scope string_scope.
Local Open Scope list_scope.

(* ================================================================== *)
(** ** Strings *)
(* ================================================================== *)

Module Str.

(** Characters that cannot be typed inside a string literal. *)
Definition esc_char : ascii := "027"%char.
Definition nl_char : ascii := "010"%char.
Definition cr_char : ascii := "013"%char.
Definition dquote_char : ascii := "034"%char.
Definition quote_char : ascii := "039"%char.
Definition backslash_char : ascii := "092"%char.

Definition esc : string := String esc_char "".
Definition nl : string := String nl_char "".
Definition dquote : string := String dquote_char "".

(** [s.empty()] *)
Definition empty (s : string) : bool :=
  match s with
  | EmptyString => true
  | String _ _ => false
  end.

(** [s.substr(pos)]: the suffix that starts at [pos].  The program only
    calls it with [pos <= s.size()], where it does not throw. *)
Definition substr_from (pos : nat) (s : string) : string :=
  substring pos (String.length s - pos) s.

(** [s.substr(pos, n)] *)
Definition substr (pos n : nat) (s : string) : string :=
  substring pos n s.

(** [s.find_last_of(c)]: index of the last occurrence of [c], or [None]
    for [string::npos]. *)
Fixpoint find_last_of (c : ascii) (s : string) : option nat :=
  match s with
  | EmptyString => None
  | String a s' =>
      match find_last_of c s' with
      | Some i => Some (S i)
      | None => if Ascii.eqb a c then Some 0 else None
      end
  end.

(** Occurrence of a character in a string. *)
Fixpoint contains (c : ascii) (s : string) : bool :=
  match s with
  | EmptyString => false
  | String a s' => Ascii.eqb a c || contains c s'
  end.

(** Everything a sequence of writes puts on a stream. *)
Definition concat_all (xs : list string) : string :=
  fold_right append "" xs.

(** [std::to_string(int)] *)
Definition to_string (z : Z) : string :=
  NilEmpty.string_of_int (Z.to_int z).

End Str.

(* ================================================================== *)
(** ** Regular expressions *)
(* ================================================================== *)

Module Regex.

(** The constructs of the ECMAScript grammar that the catalogue uses.
    Groups only serve as parentheses there (no back-reference reads a
    capture, and the highlighter reads sub-match 0 only), so they are
    not represented. *)
Inductive regex : Type :=
| Eps                                (* the empty pattern *)
| Chr (a : ascii)                    (* a literal character, also [\\] [\.] *)
| AnyChar                            (* [.] *)
| Digit                              (* [\d] *)
| NoneOf (cs : string)               (* [[^...]] *)
| WordBoundary                       (* [\b] *)
| EndOfInput                         (* [$], without the multiline flag *)
| Cat (r1 r2 : regex)
| Alt (r1 r2 : regex)                (* [r1|r2], left alternative first *)
| Star (r : regex).                  (* [r*], greedy *)

(** [r+] and [r?], both greedy. *)
Definition Plus (r : regex) : regex := Cat r (Star r).
Definition Opt (r : regex) : regex := Alt r Eps.

(** A literal word. *)
Fixpoint Lit (s : string) : regex :=
  match s with
  | EmptyString => Eps
  | String a EmptyString => Chr a
  | String a s' => Cat (Chr a) (Lit s')
  end.

(** [w1|w2|...|wn] *)
Fixpoint AltOf (ws : list string) : regex :=
  match ws with
  | [] => NoneOf ""          (* unused: the catalogue lists are non-empty *)
  | [w] => Lit w
  | w :: ws' => Alt (Lit w) (AltOf ws')
  end.

Definition in_range (lo hi : N) (c : ascii) : bool :=
  let n := N_of_ascii c in (lo <=? n)%N && (n <=? hi)%N.

(** [\d] in the classic locale *)
Definition is_digit (c : ascii) : bool := in_range 48 57 c.

(** The class [\w] that [\b] is defined from: letters, digits, [_]. *)
Definition is_word (c : ascii) : bool :=
  in_range 48 57 c || in_range 65 90 c || in_range 97 122 c
  || Ascii.eqb c "_"%char.

(** [.] matches everything except the line terminators. *)
Definition is_any (c : ascii) : bool :=
  negb (Ascii.eqb c Str.nl_char || Ascii.eqb c Str.cr_char).

(** The matcher's position in the searched string: the index, the
    character before it (for [\b]) and the text from it on. *)
Record cursor : Type := mkCursor {
  idx : nat;
  prev : option ascii;
  rest : string
}.

Definition next_is (p : ascii -> bool) (c : cursor) : bool :=
  match rest c with
  | EmptyString => false
  | String a _ => p a
  end.

Definition prev_is (p : ascii -> bool) (c : cursor) : bool :=
  match prev c with
  | None => false
  | Some a => p a
  end.

Definition at_word_boundary (c : cursor) : bool :=
  xorb (prev_is is_word c) (next_is is_word c).

Definition at_end (c : cursor) : bool := Str.empty (rest c).

(** Consume one character that satisfies [p]. *)
Definition eat {A} (p : ascii -> bool) (k : cursor -> option A)
  (c : cursor) : option A :=
  match rest c with
  | EmptyString => None
  | String a s' =>
      if p a then k (mkCursor (S (idx c)) (Some a) s') else None
  end.

Definition or_else {A} (x y : option A) : option A :=
  match x with
  | Some _ => x
  | None => y
  end.

(** The loop of [r*], greedy: one more round of [body] if it consumes
    input, otherwise what follows.  [n] bounds the number of rounds by
    the length of the text left.  Rounds that consume nothing are
    dropped, as ECMAScript prescribes; no star of the catalogue has a
    body that can match the empty string. *)
Fixpoint star_iter {A} (body : (cursor -> option A) -> cursor -> option A)
  (k : cursor -> option A) (n : nat) (c : cursor) : option A :=
  match n with
  | O => k c
  | S n' =>
      or_else
        (body
           (fun c' =>
              if Nat.ltb (String.length (rest c')) (String.length (rest c))
              then star_iter body k n' c' else None)
           c)
        (k c)
  end.

(** Depth-first matching with a continuation [k] for what follows: the
    first complete match in priority order is the result. *)
Fixpoint run {A} (r : regex) (k : cursor -> option A) (c : cursor)
  {struct r} : option A :=
  match r with
  | Eps => k c
  | Chr a => eat (Ascii.eqb a) k c
  | AnyChar => eat is_any k c
  | Digit => eat is_digit k c
  | NoneOf cs => eat (fun a => negb (Str.contains a cs)) k c
  | WordBoundary => if at_word_boundary c then k c else None
  | EndOfInput => if at_end c then k c else None
  | Cat r1 r2 => run r1 (run r2 k) c
  | Alt r1 r2 => or_else (run r1 k c) (run r2 k c)
  | Star r1 => star_iter (run r1) k (String.length (rest c)) c
  end.

(** One attempt at [c], then the same one character further, up to and
    including the end of the text: the leftmost match wins. *)
Fixpoint search_from (r : regex) (pos : nat) (pv : option ascii)
  (s : string) : option (nat * nat) :=
  match run r (fun c' => Some (idx c')) (mkCursor pos pv s) with
  | Some e => Some (pos, e - pos)
  | None =>
      match s with
      | EmptyString => None
      | String a s' => search_from r (S pos) (Some a) s'
      end
  end.

(** [regex_search(s, m, r)]: [Some (m.position(0), m.length(0))] when it
    returns true. *)
Definition regex_search (s : string) (r : regex) : option (nat * nat) :=
  search_from r 0 None s.

(** The least number of characters a match of [r] consumes. *)
Fixpoint min_len (r : regex) : nat :=
  match r with
  | Eps | WordBoundary | EndOfInput | Star _ => 0
  | Chr _ | AnyChar | Digit | NoneOf _ => 1
  | Cat r1 r2 => min_len r1 + min_len r2
  | Alt r1 r2 => Nat.min (min_len r1) (min_len r2)
  end.

(** [c'] lies [d] or more characters after [c] in the same text. *)
Definition ahead (d : nat) (c c' : cursor) : Prop :=
  idx c + d <= idx c'
  /\ idx c' + String.length (rest c') = idx c + String.length (rest c).

End Regex.

(* ================================================================== *)
(** ** The highlighter *)
(* ================================================================== *)

Module Highlighter.
Import Regex.

(** [rgb(r, g, b)]: the escape sequence that selects a foreground
    colour. *)
Definition rgb (r g b : Z) : string :=
  Str.esc ++ "[38;2;" ++ Str.to_string r ++ ";" ++ Str.to_string g
  ++ ";" ++ Str.to_string b ++ "m".

(** [reset] *)
Definition reset : string := Str.esc ++ "[0m".

(** [struct HighlightRule] *)
Record HighlightRule : Type := mkRule {
  pattern : regex;
  color_code : string
}.

(** [r1 r2 ... rn] *)
Fixpoint Seq (rs : list regex) : regex :=
  match rs with
  | [] => Eps
  | [r] => r
  | r :: rs' => Cat r (Seq rs')
  end.

Definition cpp_keywords : list string :=
  [ "alignas"; "alignof"; "and"; "and_eq"; "asm"; "auto"; "bool"; "break";
    "case"; "catch"; "char"; "class"; "const"; "constexpr"; "const_cast";
    "continue"; "decltype"; "default"; "delete"; "do"; "double";
    "dynamic_cast"; "else"; "enum"; "explicit"; "export"; "extern"; "false";
    "float"; "for"; "friend"; "goto"; "if"; "inline"; "int"; "long";
    "mutable"; "namespace"; "new"; "noexcept"; "nullptr"; "operator";
    "private"; "protected"; "public"; "register"; "reinterpret_cast";
    "return"; "short"; "signed"; "sizeof"; "static"; "static_assert";
    "static_cast"; "struct"; "switch"; "template"; "this"; "thread_local";
    "throw"; "true"; "try"; "typedef"; "typeid"; "typename"; "union";
    "unsigned"; "using"; "virtual"; "void"; "volatile"; "wchar_t"; "while";
    "xor"; "xor_eq" ].

Definition py_keywords : list string :=
  [ "False"; "None"; "True"; "and"; "as"; "assert"; "async"; "await";
    "break"; "class"; "continue"; "def"; "del"; "elif"; "else"; "except";
    "finally"; "for"; "from"; "global"; "if"; "import"; "in"; "is";
    "lambda"; "nonlocal"; "not"; "or"; "pass"; "raise"; "return"; "try";
    "while"; "with"; "yield" ].

(** [\b(w1|...|wn)\b] *)
Definition keyword_pattern (ws : list string) : regex :=
  Seq [WordBoundary; AltOf ws; WordBoundary].

(** [[^q\\]] for a quote character [q] *)
Definition unquoted (q : ascii) : regex :=
  NoneOf (String q (String Str.backslash_char "")).

(** [\\.] *)
Definition escaped : regex := Cat (Chr Str.backslash_char) AnyChar.

(** The C-family string and character literals: a quote [q], a run of
    characters other than [q] and the backslash, any number of groups
    made of an escaped character and such a run, and [q] again. *)
Definition cpp_quoted (q : ascii) : regex :=
  Seq [Chr q; Star (unquoted q);
       Star (Cat escaped (Star (unquoted q))); Chr q].

(** The Python string literals: a quote [q], any number of items that
    are a character other than [q] and the backslash or an escaped
    character, and [q] again. *)
Definition py_quoted (q : ascii) : regex :=
  Seq [Chr q; Star (Alt (unquoted q) escaped); Chr q].

(** [//.*$] and [#.*$] *)
Definition cpp_comment : regex :=
  Seq [Chr "/"; Chr "/"; Star AnyChar; EndOfInput].
Definition py_comment : regex :=
  Seq [Chr "#"; Star AnyChar; EndOfInput].

(** [\b\d+(\.\d+)?\b] *)
Definition number : regex :=
  Seq [WordBoundary; Plus Digit; Opt (Cat (Chr ".") (Plus Digit));
       WordBoundary].

Definition blue : string := rgb 0 136 255.      (* 0x00, 0x88, 0xff *)
Definition orange : string := rgb 255 136 0.    (* 0xff, 0x88, 0x00 *)
Definition gray : string := rgb 136 136 136.    (* 0x88, 0x88, 0x88 *)
Definition magenta : string := rgb 255 0 255.   (* 0xff, 0x00, 0xff *)

Definition cpp_rules : list HighlightRule :=
  [ mkRule (keyword_pattern cpp_keywords) blue;
    mkRule (cpp_quoted Str.dquote_char) orange;
    mkRule (cpp_quoted Str.quote_char) orange;
    mkRule cpp_comment gray;
    mkRule number magenta ].

Definition py_rules : list HighlightRule :=
  [ mkRule (keyword_pattern py_keywords) blue;
    mkRule (py_quoted Str.dquote_char) orange;
    mkRule (py_quoted Str.quote_char) orange;
    mkRule py_comment gray;
    mkRule number magenta ].

(** [getHighlightRules(ext)] *)
Definition getHighlightRules (ext : string) : list HighlightRule :=
  if String.eqb ext "cpp" || String.eqb ext "hpp" || String.eqb ext "c"
     || String.eqb ext "h"
  then cpp_rules
  else if String.eqb ext "py" then py_rules
  else [].

(** [getFileExtension(filename)] *)
Definition getFileExtension (filename : string) : string :=
  match Str.find_last_of "." filename with
  | None => ""
  | Some pos => Str.substr_from (pos + 1) filename
  end.

(** What one output statement writes to [cout]: a piece of text as it is,
    or a piece of text between a colour code and [reset]. *)
Inductive chunk : Type :=
| Plain (text : string)
| Colored (code : string) (text : string).

(** The characters a chunk puts on the stream. *)
Definition render_chunk (c : chunk) : string :=
  match c with
  | Plain t => t
  | Colored code t => code ++ t ++ reset
  end.

Definition render (out : list chunk) : string :=
  Str.concat_all (map render_chunk out).

(** The text of a chunk, without the colour markers around it. *)
Definition chunk_text (c : chunk) : string :=
  match c with
  | Plain t => t
  | Colored _ t => t
  end.

Definition strip_markers (out : list chunk) : string :=
  Str.concat_all (map chunk_text out).

Definition is_colored (c : chunk) : bool :=
  match c with
  | Plain _ => false
  | Colored _ _ => true
  end.

(** The locals [earliest_pos], [earliest_len] and [color_code] of the
    scan; [None] stands for [earliest_pos == string::npos]. *)
Definition earliest : Type := option (nat * nat * string).

(** [match_pos < earliest_pos] *)
Definition before (match_pos : nat) (e : earliest) : bool :=
  match e with
  | None => true
  | Some (earliest_pos, _, _) => (match_pos <? earliest_pos)%nat
  end.

(** The body of the [for] loop over the rules. *)
Definition consider (remaining : string) (e : earliest)
  (rule : HighlightRule) : earliest :=
  match regex_search remaining (pattern rule) with
  | Some (match_pos, match_len) =>
      if before match_pos e
      then Some (match_pos, match_len, color_code rule)
      else e
  | None => e
  end.

Definition find_earliest (remaining : string)
  (rules : list HighlightRule) : earliest :=
  fold_left (consider remaining) rules None.

(** One pass through the body of the [while] loop, for a non-empty
    [remaining]: what it prints, and the next [remaining], or [None]
    when it leaves the loop through [break]. *)
Definition iteration (remaining : string) (rules : list HighlightRule)
  : list chunk * option string :=
  match find_earliest remaining rules with
  | None => ([Plain remaining], None)
  | Some (earliest_pos, earliest_len, code) =>
      ((if (0 <? earliest_pos)%nat
        then [Plain (Str.substr 0 earliest_pos remaining)]
        else [])
       ++ [Colored code (Str.substr earliest_pos earliest_len remaining)],
       Some (Str.substr_from (earliest_pos + earliest_len) remaining))
  end.

(** The [while] loop of [highlightAndPrintLine]; [None] when [fuel]
    iterations were not enough. *)
Fixpoint scan (fuel : nat) (remaining : string)
  (rules : list HighlightRule) : option (list chunk) :=
  if Str.empty remaining then Some []
  else
    match fuel with
    | O => None
    | S fuel' =>
        match iteration remaining rules with
        | (out, None) => Some out
        | (out, Some remaining') =>
            match scan fuel' remaining' rules with
            | None => None
            | Some outs => Some (out ++ outs)
            end
        end
    end.

(** [highlightAndPrintLine(line, rules)] *)
Definition highlightAndPrintLine (fuel : nat) (line : string)
  (rules : list HighlightRule) : option (list chunk) :=
  match scan fuel line rules with
  | None => None
  | Some out => Some (out ++ [Plain Str.nl])
  end.

(** What a run of the program leaves behind. *)
Record outcome : Type := mkOutcome {
  out_stream : list chunk;
  err_stream : string;
  exit_code : Z
}.

(** [while (getline(file, line)) highlightAndPrintLine(line, rules);] *)
Fixpoint print_lines (fuel : nat) (lines : list string)
  (rules : list HighlightRule) : option (list chunk) :=
  match lines with
  | [] => Some []
  | line :: lines' =>
      match highlightAndPrintLine fuel line rules with
      | None => None
      | Some out =>
          match print_lines fuel lines' rules with
          | None => None
          | Some outs => Some (out ++ outs)
          end
      end
  end.

(** [main(argc, argv)].  [prog] is [argv[0]] and [args] the arguments
    after it, so that [argc = 1 + length args] (a call with [argc = 0]
    is not represented).  [open name] is the file
    system: [None] when the file cannot be opened, otherwise the lines
    that the successive calls of [getline] read from it. *)
Definition main (fuel : nat) (open : string -> option (list string))
  (prog : string) (args : list string) : option outcome :=
  match args with
  | [] =>
      Some (mkOutcome [] ("Usage: " ++ prog ++ " filename" ++ Str.nl) 1)
  | filename :: _ =>
      match open filename with
      | None =>
          Some (mkOutcome []
                  ("Error: Cannot open file " ++ filename ++ Str.nl) 1)
      | Some lines =>
          let ext := getFileExtension filename in
          let rules := getHighlightRules ext in
          match print_lines fuel lines rules with
          | None => None
          | Some out => Some (mkOutcome out "" 0)
          end
      end
  end.

(** A pattern whose matches always move the scan forward: on a non-empty
    text, [earliest_pos + earliest_len] is at least one. *)
Definition advances (pat : regex) : Prop :=
  forall s p l, s <> "" -> regex_search s pat = Some (p, l) -> 1 <= p + l.

(** Each chunk with the offset at which its text starts. *)
Fixpoint placed (start : nat) (out : list chunk) : list (nat * chunk) :=
  match out with
  | [] => []
  | c :: out' =>
      (start, c) :: placed (start + String.length (chunk_text c)) out'
  end.

(** The chunks cover [text] from left to right: each one carries the
    characters of [text] that start where the one before it ended, and
    the last one ends where [text] ends. *)
Definition tiles (text : string) (out : list chunk) : Prop :=
  Forall (fun oc =>
            Str.substr (fst oc) (String.length (chunk_text (snd oc))) text
            = chunk_text (snd oc))
         (placed 0 out)
  /\ list_sum (map (fun c => String.length (chunk_text c)) out)
     = String.length text.

End Highlighter.

(* ================================================================== *)
(** ** Inputs used in the scenarios *)
(* ================================================================== *)

Module Scenarios.
Import Regex Highlighter.

(** The extensions [getHighlightRules] compares [ext] with. *)
Definition c_family : list string := ["cpp"; "hpp"; "c"; "h"].
Definition supported : list string := c_family ++ ["py"].

Definition c_line : string := "int x = 42; // comment".
Definition py_string : string := Str.dquote ++ "value 123" ++ Str.dquote.
Definition py_line : string := "s = " ++ py_string.

(** A rule whose pattern, [x*], also matches the empty string. *)
Definition star_rule : HighlightRule := mkRule (Star (Chr "x")) blue.

(** Two rules that match at the same place with different lengths. *)
Definition digit_rule : HighlightRule := mkRule Digit blue.
Definition digits_rule : HighlightRule := mkRule (Plus Digit) magenta.

(** A file system with one readable file. *)
Definition one_file (name : string) (lines : list string)
  : string -> option (list string) :=
  fun n => if String.eqb n name then Some lines else None.

(** What [highlightAndPrintLine] prints when nothing is coloured. *)
Definition plain_line (line : string) : list chunk :=
  (if Str.empty line then [] else [Plain line]) ++ [Plain Str.nl].

End Scenarios.


(* ================================================================== *)
(** ** Vocabulary for the properties of the matcher and of the output *)
(* ================================================================== *)

Module Semantics.
Import Regex Highlighter.

(** [c'] is [c] after one character that satisfies [p]. *)
Definition step_to (p : ascii -> bool) (c c' : cursor) : Prop :=
  exists a s',
    rest c = String a s' /\ p a = true
    /\ c' = mkCursor (S (idx c)) (Some a) s'.

(** The matches of a pattern, from one cursor to another, told without
    a search order. *)
Inductive matches : regex -> cursor -> cursor -> Prop :=
| m_eps c : matches Eps c c
| m_chr a c c' : step_to (Ascii.eqb a) c c' -> matches (Chr a) c c'
| m_any c c' : step_to is_any c c' -> matches AnyChar c c'
| m_digit c c' : step_to is_digit c c' -> matches Digit c c'
| m_none_of cs c c' :
    step_to (fun a => negb (Str.contains a cs)) c c' ->
    matches (NoneOf cs) c c'
| m_boundary c : at_word_boundary c = true -> matches WordBoundary c c
| m_end c : at_end c = true -> matches EndOfInput c c
| m_cat r1 r2 c c1 c2 :
    matches r1 c c1 -> matches r2 c1 c2 -> matches (Cat r1 r2) c c2
| m_alt_l r1 r2 c c' : matches r1 c c' -> matches (Alt r1 r2) c c'
| m_alt_r r1 r2 c c' : matches r2 c c' -> matches (Alt r1 r2) c c'
| m_star_stop r c : matches (Star r) c c
| m_star_more r c c1 c2 :
    matches r c c1 -> matches (Star r) c1 c2 -> matches (Star r) c c2.

(** The last character of [w], or [pv] when [w] is empty. *)
Fixpoint last_char (w : string) (pv : option ascii) : option ascii :=
  match w with
  | EmptyString => pv
  | String a w' => last_char w' (Some a)
  end.

Definition first_char (s : string) : option ascii :=
  match s with
  | EmptyString => None
  | String a _ => Some a
  end.

(** [c'] is [c] after the text [w]. *)
Definition spans (c c' : cursor) (w : string) : Prop :=
  rest c = (w ++ rest c')%string
  /\ idx c' = idx c + String.length w
  /\ prev c' = last_char w (prev c).

(** Whether there is a character and it belongs to [\w]. *)
Definition is_word_opt (o : option ascii) : bool :=
  match o with
  | None => false
  | Some a => is_word a
  end.

Fixpoint all_chars (p : ascii -> bool) (s : string) : bool :=
  match s with
  | EmptyString => true
  | String a s' => p a && all_chars p s'
  end.

(** A non-empty text made of letters, digits and underscores. *)
Definition is_identifier (w : string) : bool :=
  negb (Str.empty w) && all_chars is_word w.

Definition is_digits (w : string) : bool :=
  negb (Str.empty w) && all_chars is_digit w.

(** The items between the quotes of a literal: a character other than
    the quote [q] and the backslash, or a backslash and the character it
    escapes. *)
Definition literal_item (q : ascii) (item : string) : Prop :=
  (exists a,
     item = String a ""
     /\ Ascii.eqb a q = false /\ Ascii.eqb a Str.backslash_char = false)
  \/ (exists a,
        item = String Str.backslash_char (String a "")
        /\ is_any a = true).



(** The candidate kept after the rules [done]: none if none of them
    matches, otherwise the match of the rule at some index [k] that
    starts lowest, [k] being the least index among the rules whose
    match starts there. *)
Definition kept_after (remaining : string) (done : list HighlightRule)
  (e : earliest) : Prop :=
  match e with
  | None =>
      forall B, In B done -> regex_search remaining (pattern B) = None
  | Some (p, l, code) =>
      exists k A,
        nth_error done k = Some A
        /\ regex_search remaining (pattern A) = Some (p, l)
        /\ code = color_code A
        /\ forall j B q m,
             nth_error done j = Some B ->
             regex_search remaining (pattern B) = Some (q, m) ->
             p <= q /\ (q = p -> k <= j)
  end.

(** Where a chunk printed for [line] comes from: a plain chunk is a
    non-empty piece of [line]; a coloured chunk is the match that
    [regex_search] reports for one of the rules on a suffix of [line],
    in the colour of that rule. *)
Definition chunk_from (rules : list HighlightRule) (line : string)
  (ch : chunk) : Prop :=
  match ch with
  | Plain t =>
      t <> "" /\ exists pre post, line = (pre ++ t ++ post)%string
  | Colored code t =>
      exists rule pre remaining p l,
        In rule rules /\ code = color_code rule
        /\ line = (pre ++ remaining)%string
        /\ regex_search remaining (pattern rule) = Some (p, l)
        /\ t = Str.substr p l remaining
  end.

(** What the colour of a chunk tells about its text, for a language
    with the keywords [ws] and the comment marker [marker]. *)
Definition chunk_meaning (ws : list string) (marker : string)
  (ch : chunk) : Prop :=
  match ch with
  | Plain _ => True
  | Colored code t =>
      (code = blue /\ In t ws)
      \/ (code = orange
          /\ exists q items,
               (q = Str.dquote_char \/ q = Str.quote_char)
               /\ t = String q (Str.concat_all items ++ String q "")
               /\ Forall (literal_item q) items)
      \/ (code = gray
          /\ exists body,
               t = (marker ++ body)%string /\ all_chars is_any body = true)
      \/ (code = magenta
          /\ exists ds frac,
               t = (ds ++ frac)%string /\ is_digits ds = true
               /\ (frac = ""
                   \/ exists ds',
                        frac = ("." ++ ds')%string /\ is_digits ds' = true))
  end.

End Semantics.

(* ================================================================== *)
(** ** Facts about the string operations *)
(* ================================================================== *)

Module StrFacts.
Import Str.

Lemma length_append (s t : string) :
  String.length (s ++ t) = String.length s + String.length t.
Proof.
  induction s as [|a s IH]; simpl; [reflexivity | now rewrite IH].
Qed.

Lemma append_nil_r (s : string) : (s ++ "")%string = s.
Proof.
  induction s as [|a s IH]; simpl; [reflexivity | now rewrite IH].
Qed.

Lemma append_assoc (s t u : string) :
  ((s ++ t) ++ u)%string = (s ++ t ++ u)%string.
Proof.
  induction s as [|a s IH]; simpl; [reflexivity | now rewrite IH].
Qed.

Lemma empty_true (s : string) : empty s = true <-> s = "".
Proof.
  destruct s; simpl; split; intros H; try reflexivity; discriminate.
Qed.

Lemma empty_false_length (s : string) :
  empty s = false -> 1 <= String.length s.
Proof.
  destruct s; simpl; intros H; [discriminate | lia].
Qed.

Lemma substring_all (s : string) : substring 0 (String.length s) s = s.
Proof.
  induction s as [|a s IH]; simpl; [reflexivity | now rewrite IH].
Qed.

Lemma substring_zero_len (n : nat) (s : string) : substring n 0 s = "".
Proof.
  revert n; induction s as [|a s IH]; intros [|n]; simpl; auto.
Qed.

Lemma length_substring (n m : nat) (s : string) :
  n + m <= String.length s -> String.length (substring n m s) = m.
Proof.
  revert n m; induction s as [|a s IH]; intros [|n] [|m]; simpl; intros H;
    try reflexivity; try lia.
  - rewrite IH; [reflexivity | lia].
  - apply IH; lia.
  - apply IH; simpl; lia.
Qed.

(** A string is its first [p] characters, the next [l], and the rest. *)
Lemma substring_split (p l : nat) (s : string) :
  p + l <= String.length s ->
  (substring 0 p s ++ substring p l s ++ substr_from (p + l) s)%string = s.
Proof.
  unfold substr_from.
  revert p l; induction s as [|a s IH]; intros p l H; simpl in H.
  - assert (p = 0) by lia; assert (l = 0) by lia; subst; reflexivity.
  - destruct p as [|p].
    + destruct l as [|l]; simpl.
      * now rewrite substring_all.
      * f_equal. specialize (IH 0 l). rewrite substring_zero_len in IH.
        apply IH. simpl; lia.
    + simpl. f_equal. apply IH. lia.
Qed.

Lemma length_substr_from (n : nat) (s : string) :
  String.length (substr_from n s) = String.length s - n.
Proof.
  unfold substr_from.
  destruct (le_lt_dec n (String.length s)) as [H|H].
  - apply length_substring; lia.
  - replace (String.length s - n) with 0 by lia.
    now rewrite substring_zero_len.
Qed.

Lemma substr_from_append (pre suf : string) :
  substr_from (String.length pre) (pre ++ suf) = suf.
Proof.
  unfold substr_from. rewrite length_append.
  replace (String.length pre + String.length suf - String.length pre)
    with (String.length suf) by lia.
  induction pre as [|a pre IH]; simpl; [apply substring_all | exact IH].
Qed.


Lemma find_last_of_absent (c : ascii) (s : string) :
  contains c s = false -> find_last_of c s = None.
Proof.
  induction s as [|a s IH]; simpl; [reflexivity|].
  intros H. apply orb_false_iff in H as [Ha Hs].
  now rewrite (IH Hs), Ha.
Qed.

Lemma find_last_of_none (c : ascii) (s : string) :
  find_last_of c s = None -> contains c s = false.
Proof.
  induction s as [|a s IH]; simpl; [reflexivity|].
  destruct (find_last_of c s); [discriminate|].
  destruct (Ascii.eqb a c); [discriminate|].
  intros _. now rewrite IH.
Qed.

(** The last occurrence: nothing equal to [c] comes after it. *)
Lemma find_last_of_last (c : ascii) (pre suf : string) :
  contains c suf = false ->
  find_last_of c (pre ++ String c suf) = Some (String.length pre).
Proof.
  intros H. induction pre as [|a pre IH]; simpl.
  - now rewrite (find_last_of_absent _ _ H), Ascii.eqb_refl.
  - now rewrite IH.
Qed.

Lemma find_last_of_some (c : ascii) (s : string) (i : nat) :
  find_last_of c s = Some i ->
  exists pre suf,
    s = (pre ++ String c suf)%string /\ String.length pre = i
    /\ contains c suf = false.
Proof.
  revert i; induction s as [|a s IH]; simpl; intros i H; [discriminate|].
  destruct (find_last_of c s) as [j|] eqn:E.
  - injection H as <-. destruct (IH j eq_refl) as (pre & suf & -> & <- & Hs).
    now exists (String a pre), suf.
  - destruct (Ascii.eqb_spec a c) as [->|]; [|discriminate].
    injection H as <-. exists "", s. repeat split.
    now apply find_last_of_none.
Qed.

Lemma concat_all_app (xs ys : list string) :
  concat_all (xs ++ ys) = (concat_all xs ++ concat_all ys)%string.
Proof.
  induction xs as [|x xs IH]; simpl; [reflexivity|].
  now rewrite IH, append_assoc.
Qed.

End StrFacts.

(* ================================================================== *)
(** ** Facts about the matcher *)
(* ================================================================== *)

Module RegexFacts.
Import Regex.

Lemma ahead_refl (c : cursor) : ahead 0 c c.
Proof. unfold ahead; lia. Qed.

Lemma ahead_trans (d1 d2 : nat) (c1 c2 c3 : cursor) :
  ahead d1 c1 c2 -> ahead d2 c2 c3 -> ahead (d1 + d2) c1 c3.
Proof. unfold ahead; lia. Qed.

Lemma ahead_weaken (d d' : nat) (c c' : cursor) :
  d' <= d -> ahead d c c' -> ahead d' c c'.
Proof. unfold ahead; lia. Qed.

Lemma eat_ahead {A} (p : ascii -> bool) (k : cursor -> option A)
  (c : cursor) (e : A) :
  eat p k c = Some e -> exists c', k c' = Some e /\ ahead 1 c c'.
Proof.
  unfold eat. destruct (rest c) as [|a s'] eqn:E; [discriminate|].
  destruct (p a); [|discriminate].
  intros H. eexists; split; [exact H|].
  unfold ahead; simpl. rewrite E; simpl. lia.
Qed.

Lemma or_else_some {A} (x y : option A) (e : A) :
  or_else x y = Some e -> x = Some e \/ y = Some e.
Proof. destruct x; simpl; auto. Qed.

Section StarIter.
Context {A : Type}.
Variable body : (cursor -> option A) -> cursor -> option A.
Hypothesis body_ahead :
  forall k c e, body k c = Some e -> exists c', k c' = Some e /\ ahead 0 c c'.

Lemma star_iter_ahead (k : cursor -> option A) (n : nat) :
  forall c e,
    star_iter body k n c = Some e ->
    exists c', k c' = Some e /\ ahead 0 c c'.
Proof.
  induction n as [|n IH]; intros c e H; simpl in H.
  - exists c; split; [exact H | apply ahead_refl].
  - apply or_else_some in H as [H|H].
    + apply body_ahead in H as (c1 & H1 & Ha1).
      destruct (Nat.ltb _ _); [|discriminate].
      apply IH in H1 as (c2 & H2 & Ha2).
      exists c2; split; [exact H2|].
      apply (ahead_trans 0 0 c c1 c2); assumption.
    + exists c; split; [exact H | apply ahead_refl].
Qed.
End StarIter.

(** Whatever [run r] hands to its continuation lies at least
    [min_len r] characters further, and never past the end. *)
Lemma run_ahead (r : regex) :
  forall A (k : cursor -> option A) c e,
    run r k c = Some e ->
    exists c', k c' = Some e /\ ahead (min_len r) c c'.
Proof.
  induction r as [ | a | | | cs | | | r1 IH1 r2 IH2 | r1 IH1 r2 IH2 | r IH ];
    intros A k c e H.
  - exists c; split; [exact H | apply ahead_refl].
  - now apply eat_ahead in H.
  - now apply eat_ahead in H.
  - now apply eat_ahead in H.
  - now apply eat_ahead in H.
  - simpl in H. destruct (at_word_boundary c); [|discriminate].
    exists c; split; [exact H | apply ahead_refl].
  - simpl in H. destruct (at_end c); [|discriminate].
    exists c; split; [exact H | apply ahead_refl].
  - simpl in H. apply IH1 in H as (c1 & H1 & Ha1).
    apply IH2 in H1 as (c2 & H2 & Ha2).
    exists c2; split; [exact H2 | now apply (ahead_trans _ _ c c1 c2)].
  - simpl in H. apply or_else_some in H as [H|H].
    + apply IH1 in H as (c1 & H1 & Ha1). exists c1; split; [exact H1|].
      apply (ahead_weaken (min_len r1)); [apply Nat.le_min_l | exact Ha1].
    + apply IH2 in H as (c2 & H2 & Ha2). exists c2; split; [exact H2|].
      apply (ahead_weaken (min_len r2)); [apply Nat.le_min_r | exact Ha2].
  - simpl in H.
    apply star_iter_ahead in H; [exact H|].
    intros k0 c0 e0 H0. apply IH in H0 as (c1 & H1 & Ha1).
    exists c1; split; [exact H1|].
    apply (ahead_weaken (min_len r)); [lia | exact Ha1].
Qed.

Lemma search_from_bounds (r : regex) (s : string) :
  forall pos pv p l,
    search_from r pos pv s = Some (p, l) ->
    pos <= p /\ p + l <= pos + String.length s /\ min_len r <= l.
Proof.
  induction s as [|a s IH]; intros pos pv p l H; simpl in H.
  - destruct (run r _ _) as [e|] eqn:E; [|discriminate].
    injection H as <- <-.
    apply run_ahead in E as (c' & Hk & Ha).
    injection Hk as <-. unfold ahead in Ha; simpl in *. lia.
  - destruct (run r _ _) as [e|] eqn:E.
    + injection H as <- <-.
      apply run_ahead in E as (c' & Hk & Ha).
      injection Hk as <-. unfold ahead in Ha; simpl in *. lia.
    + apply IH in H. simpl. lia.
Qed.

(** A match reported by [regex_search] lies inside the text and is at
    least [min_len] long. *)
Lemma regex_search_bounds (s : string) (r : regex) (p l : nat) :
  regex_search s r = Some (p, l) ->
  p + l <= String.length s /\ min_len r <= l.
Proof.
  unfold regex_search. intros H.
  apply search_from_bounds in H. lia.
Qed.

(** The matcher on a few texts: the leftmost match wins, [\b] needs a
    word on exactly one side, an escaped quote does not end a literal,
    and [.] stops at a carriage return, so that [$] is not reached. *)
Example search_keyword :
  regex_search "print(int)" (Highlighter.keyword_pattern ["in"; "int"])
  = Some (6, 3).
Proof. reflexivity. Qed.

Example search_number :
  regex_search "v2 3.14." Highlighter.number = Some (3, 4).
Proof. reflexivity. Qed.

Example search_escaped_quote :
  regex_search "a 'b\'c' d" (Highlighter.cpp_quoted Str.quote_char)
  = Some (2, 6)
  /\ regex_search "a 'b\'c' d" (Highlighter.py_quoted Str.quote_char)
     = Some (2, 6).
Proof. split; reflexivity. Qed.

Example search_unterminated :
  regex_search "say 'hi" (Highlighter.py_quoted Str.quote_char) = None.
Proof. reflexivity. Qed.

Example search_comment_cr :
  regex_search ("x # y" ++ String Str.cr_char "") Highlighter.py_comment
  = None
  /\ regex_search "x # y" Highlighter.py_comment = Some (2, 3).
Proof. split; reflexivity. Qed.

Example search_empty_match :
  regex_search "a" (Star (Chr "x")) = Some (0, 0).
Proof. reflexivity. Qed.

End RegexFacts.

(* ================================================================== *)
(** ** Facts about the scan *)
(* ================================================================== *)

Module ScanFacts.
Import Str Regex Highlighter StrFacts RegexFacts.

Lemma min_len_advances (pat : regex) : 1 <= min_len pat -> advances pat.
Proof.
  intros Hm s p l _ H. apply regex_search_bounds in H. lia.
Qed.

Lemma strip_markers_app (xs ys : list chunk) :
  strip_markers (xs ++ ys) = (strip_markers xs ++ strip_markers ys)%string.
Proof.
  unfold strip_markers. rewrite map_app. apply concat_all_app.
Qed.

Lemma render_app (xs ys : list chunk) :
  render (xs ++ ys) = (render xs ++ render ys)%string.
Proof.
  unfold render. rewrite map_app. apply concat_all_app.
Qed.

Lemma substring_middle (pre t post : string) :
  substring (String.length pre) (String.length t) (pre ++ t ++ post) = t.
Proof.
  induction pre as [|a pre IH]; simpl; [|exact IH].
  induction t as [|b t IHt]; simpl.
  - apply substring_zero_len.
  - now rewrite IHt.
Qed.

Lemma placed_tiles (out : list chunk) :
  forall pre,
    Forall (fun oc =>
              substr (fst oc) (String.length (chunk_text (snd oc)))
                (pre ++ strip_markers out)
              = chunk_text (snd oc))
           (placed (String.length pre) out).
Proof.
  induction out as [|c out IH]; intros pre; simpl; constructor.
  - simpl. unfold substr. change (strip_markers (c :: out))
      with (chunk_text c ++ strip_markers out)%string.
    apply substring_middle.
  - specialize (IH (pre ++ chunk_text c)%string).
    rewrite length_append, append_assoc in IH. exact IH.
Qed.

Lemma strip_markers_length (out : list chunk) :
  list_sum (map (fun c => String.length (chunk_text c)) out)
  = String.length (strip_markers out).
Proof.
  induction out as [|c out IH]; simpl; [reflexivity|].
  change (strip_markers (c :: out))
    with (chunk_text c ++ strip_markers out)%string.
  now rewrite length_append, IH.
Qed.

(** Chunks whose texts concatenate to [text] tile it. *)
Lemma strip_markers_tiles (text : string) (out : list chunk) :
  strip_markers out = text -> tiles text out.
Proof.
  intros <-. split.
  - exact (placed_tiles out "").
  - apply strip_markers_length.
Qed.

(** *** The search for the earliest match *)

Lemma fold_consider_sound (remaining : string) (rules : list HighlightRule) :
  forall e p l code,
    fold_left (consider remaining) rules e = Some (p, l, code) ->
    e = Some (p, l, code)
    \/ exists rule,
         In rule rules
         /\ regex_search remaining (pattern rule) = Some (p, l)
         /\ code = color_code rule.
Proof.
  induction rules as [|r rules IH]; intros e p l code H; simpl in H.
  - now left.
  - apply IH in H as [H | (rule & Hin & Hs & Hc)].
    + unfold consider in H.
      destruct (regex_search remaining (pattern r)) as [[q m]|] eqn:E;
        [|now left].
      destruct (before q e); [|now left].
      injection H as <- <- <-. right. exists r. simpl; auto.
    + right. exists rule. simpl; auto.
Qed.

(** What [find_earliest] returns is a match of one of the rules. *)
Lemma find_earliest_sound (remaining : string) (rules : list HighlightRule)
  (p l : nat) (code : string) :
  find_earliest remaining rules = Some (p, l, code) ->
  exists rule,
    In rule rules
    /\ regex_search remaining (pattern rule) = Some (p, l)
    /\ code = color_code rule.
Proof.
  intros H. apply fold_consider_sound in H as [H|H]; [discriminate | exact H].
Qed.

Lemma find_earliest_bounds (remaining : string) (rules : list HighlightRule)
  (p l : nat) (code : string) :
  find_earliest remaining rules = Some (p, l, code) ->
  p + l <= String.length remaining.
Proof.
  intros H. apply find_earliest_sound in H as (rule & _ & H & _).
  now apply regex_search_bounds in H.
Qed.

(** Rules that only match later than [p] leave a candidate later than
    [p], if any. *)
Lemma fold_consider_later (remaining : string) (p : nat)
  (rules : list HighlightRule) :
  (forall B q m, In B rules ->
     regex_search remaining (pattern B) = Some (q, m) -> p < q) ->
  forall e,
    before p e = true ->
    before p (fold_left (consider remaining) rules e) = true.
Proof.
  induction rules as [|r rules IH]; intros Hall e He; simpl; [exact He|].
  apply IH.
  - intros B q m HB. apply Hall. now right.
  - unfold consider.
    destruct (regex_search remaining (pattern r)) as [[q m]|] eqn:E;
      [|exact He].
    destruct (before q e); [|exact He].
    simpl. apply Nat.ltb_lt. apply (Hall r q m); [now left | exact E].
Qed.

(** Rules that match at [p] or later do not displace a candidate
    at [p]. *)
Lemma fold_consider_kept (remaining : string) (p l : nat) (code : string)
  (rules : list HighlightRule) :
  (forall B q m, In B rules ->
     regex_search remaining (pattern B) = Some (q, m) -> p <= q) ->
  fold_left (consider remaining) rules (Some (p, l, code))
  = Some (p, l, code).
Proof.
  induction rules as [|r rules IH]; intros Hall; simpl; [reflexivity|].
  assert (E : consider remaining (Some (p, l, code)) r = Some (p, l, code)).
  { unfold consider.
    destruct (regex_search remaining (pattern r)) as [[q m]|] eqn:E;
      [|reflexivity].
    assert (p <= q) by (apply (Hall r q m); [now left | exact E]).
    simpl. destruct (Nat.ltb_spec q p); [lia | reflexivity]. }
  rewrite E. apply IH. intros B q m HB. apply Hall. now right.
Qed.

(** *** The loop *)

Lemma iteration_content (remaining : string) (rules : list HighlightRule)
  (out : list chunk) (next : option string) :
  iteration remaining rules = (out, next) ->
  (strip_markers out ++ match next with Some s => s | None => "" end)%string
  = remaining.
Proof.
  unfold iteration.
  destruct (find_earliest remaining rules) as [[[p l] code]|] eqn:E.
  - intros H. injection H as <- <-.
    apply find_earliest_bounds in E.
    rewrite strip_markers_app, append_assoc.
    destruct (Nat.ltb_spec 0 p) as [Hp|Hp].
    + cbn -[substr_from]. unfold substr.
      rewrite append_nil_r, append_nil_r.
      now apply substring_split.
    + assert (p = 0) by lia; subst p.
      cbn -[substr_from append]. unfold substr. rewrite append_nil_r.
      pose proof (substring_split 0 l remaining E) as S.
      rewrite substring_zero_len in S. exact S.
  - intros H. injection H as <- <-. cbn. now rewrite !append_nil_r.
Qed.

(** Whenever the loop ends, the texts it printed make up the line. *)
Lemma scan_content (rules : list HighlightRule) (fuel : nat) :
  forall remaining out,
    scan fuel remaining rules = Some out -> strip_markers out = remaining.
Proof.
  induction fuel as [|fuel IH]; intros remaining out H; simpl in H.
  - destruct (empty remaining) eqn:E; [|discriminate].
    injection H as <-. apply empty_true in E. now subst.
  - destruct (empty remaining) eqn:E.
    + injection H as <-. apply empty_true in E. now subst.
    + destruct (iteration remaining rules) as [o [next|]] eqn:It.
      * destruct (scan fuel next rules) as [outs|] eqn:Sc; [|discriminate].
        injection H as <-. apply IH in Sc.
        apply iteration_content in It.
        rewrite strip_markers_app, Sc. exact It.
      * injection H as <-. apply iteration_content in It.
        now rewrite append_nil_r in It.
Qed.

(** More fuel does not change a result. *)
Lemma scan_fuel_mono (rules : list HighlightRule) (fuel : nat) :
  forall fuel' remaining out,
    fuel <= fuel' ->
    scan fuel remaining rules = Some out ->
    scan fuel' remaining rules = Some out.
Proof.
  induction fuel as [|fuel IH]; intros fuel' remaining out Hle H.
  - simpl in H. destruct (empty remaining) eqn:E; [|discriminate].
    destruct fuel'; simpl; now rewrite E.
  - destruct fuel' as [|fuel']; [lia|].
    simpl in *. destruct (empty remaining); [exact H|].
    destruct (iteration remaining rules) as [o [next|]]; [|exact H].
    destruct (scan fuel next rules) as [outs|] eqn:Sc; [|discriminate].
    rewrite (IH fuel' next outs); [exact H | lia | exact Sc].
Qed.

(** With rules that advance, one unit of fuel per character is
    enough. *)
Lemma scan_terminates (rules : list HighlightRule) :
  (forall rule, In rule rules -> advances (pattern rule)) ->
  forall fuel remaining,
    String.length remaining <= fuel ->
    exists out, scan fuel remaining rules = Some out.
Proof.
  intros Hadv fuel.
  induction fuel as [|fuel IH]; intros remaining Hlen.
  - destruct remaining; simpl in *; [now exists [] | lia].
  - simpl. destruct (empty remaining) eqn:E; [now exists []|].
    unfold iteration.
    destruct (find_earliest remaining rules) as [[[p l] code]|] eqn:F;
      [|eauto].
    pose proof (find_earliest_bounds _ _ _ _ _ F) as Hb.
    apply find_earliest_sound in F as (rule & Hin & Hs & _).
    assert (Hne : remaining <> "")
      by (intros ->; discriminate).
    pose proof (Hadv rule Hin remaining p l Hne Hs) as Hpl.
    destruct (IH (substr_from (p + l) remaining)) as [outs Houts].
    { rewrite length_substr_from. lia. }
    rewrite Houts. eauto.
Qed.

Lemma highlight_fuel_mono (rules : list HighlightRule) (fuel fuel' : nat)
  (line : string) (out : list chunk) :
  fuel <= fuel' ->
  highlightAndPrintLine fuel line rules = Some out ->
  highlightAndPrintLine fuel' line rules = Some out.
Proof.
  unfold highlightAndPrintLine. intros Hle H.
  destruct (scan fuel line rules) as [o|] eqn:E; [|discriminate].
  now rewrite (scan_fuel_mono rules fuel fuel' line o Hle E).
Qed.

End ScanFacts.

(* ================================================================== *)
(** ** The rule catalogue *)
(* ================================================================== *)

Module CatalogFacts.
Import Str Regex Highlighter Scenarios StrFacts RegexFacts ScanFacts.

Lemma getHighlightRules_cases (ext : string) :
  getHighlightRules ext = cpp_rules
  \/ getHighlightRules ext = py_rules
  \/ getHighlightRules ext = [].
Proof.
  unfold getHighlightRules.
  destruct (_ || _); [now left|].
  destruct (String.eqb ext "py"); auto.
Qed.

Lemma getHighlightRules_supported (ext : string) :
  In ext supported <-> getHighlightRules ext <> [].
Proof.
  unfold getHighlightRules, supported, c_family. simpl. split.
  - intros [<-|[<-|[<-|[<-|[<-|[]]]]]]; discriminate.
  - intros H.
    destruct (String.eqb_spec ext "cpp"); [auto|].
    destruct (String.eqb_spec ext "hpp"); [auto|].
    destruct (String.eqb_spec ext "c"); [auto|].
    destruct (String.eqb_spec ext "h"); [auto 6|].
    destruct (String.eqb_spec ext "py"); [auto 6|].
    now contradiction H.
Qed.

Lemma getHighlightRules_unsupported (ext : string) :
  ~ In ext supported -> getHighlightRules ext = [].
Proof.
  intros H. destruct (getHighlightRules ext) eqn:E; [reflexivity|].
  contradiction H. apply getHighlightRules_supported. now rewrite E.
Qed.

Lemma getHighlightRules_c_family (ext : string) :
  In ext c_family -> getHighlightRules ext = cpp_rules.
Proof.
  unfold c_family. simpl.
  intros [<-|[<-|[<-|[<-|[]]]]]; reflexivity.
Qed.

(** No pattern of the catalogue can match fewer than one character. *)
Lemma catalog_min_len (ext : string) (rule : HighlightRule) :
  In rule (getHighlightRules ext) -> 1 <= min_len (pattern rule).
Proof.
  destruct (getHighlightRules_cases ext) as [-> | [-> | ->]]; simpl;
    intros H; repeat (destruct H as [<-|H]; [vm_compute; lia|]);
    contradiction.
Qed.

Lemma catalog_advances (ext : string) (rule : HighlightRule) :
  In rule (getHighlightRules ext) -> advances (pattern rule).
Proof.
  intros H. apply min_len_advances. now apply (catalog_min_len ext).
Qed.

(** Without rules every line is printed as it is. *)
Lemma scan_no_rules (fuel : nat) (line : string) :
  scan (S fuel) line [] = Some (if empty line then [] else [Plain line]).
Proof.
  simpl. destruct (empty line); reflexivity.
Qed.

Lemma highlight_no_rules (fuel : nat) (line : string) :
  highlightAndPrintLine (S fuel) line [] = Some (plain_line line).
Proof.
  unfold highlightAndPrintLine. now rewrite scan_no_rules.
Qed.

Lemma render_plain_line (line : string) :
  render (plain_line line) = (line ++ nl)%string.
Proof.
  unfold plain_line. destruct line as [|a line]; reflexivity.
Qed.

Lemma print_lines_no_rules (fuel : nat) (lines : list string) :
  print_lines (S fuel) lines []
  = Some (concat (map plain_line lines)).
Proof.
  induction lines as [|line lines IH]; [reflexivity|].
  cbn [print_lines]. rewrite highlight_no_rules, IH. reflexivity.
Qed.

Lemma render_plain_lines (lines : list string) :
  render (concat (map plain_line lines))
  = concat_all (map (fun line => (line ++ nl)%string) lines).
Proof.
  induction lines as [|line lines IH]; [reflexivity|].
  cbn [map concat]. rewrite render_app, render_plain_line, IH. reflexivity.
Qed.

Lemma plain_lines_uncolored (lines : list string) :
  existsb is_colored (concat (map plain_line lines)) = false.
Proof.
  induction lines as [|line lines IH]; [reflexivity|].
  cbn [map concat]. rewrite existsb_app, IH.
  unfold plain_line. destruct (empty line); reflexivity.
Qed.

(** What follows the last dot. *)
Lemma getFileExtension_last_dot (pre suf : string) :
  contains "." suf = false ->
  getFileExtension (pre ++ "." ++ suf) = suf.
Proof.
  intros H. unfold getFileExtension.
  change ("." ++ suf)%string with (String "." suf).
  rewrite (find_last_of_last _ pre suf H).
  replace (String.length pre + 1)
    with (String.length (pre ++ ".")%string)
    by (rewrite length_append; reflexivity).
  replace (pre ++ String "." suf)%string with ((pre ++ ".") ++ suf)%string
    by (rewrite append_assoc; reflexivity).
  apply substr_from_append.
Qed.

Lemma getFileExtension_no_dot (filename : string) :
  contains "." filename = false -> getFileExtension filename = "".
Proof.
  intros H. unfold getFileExtension.
  now rewrite (find_last_of_absent _ _ H).
Qed.

(** Every name is of one of the two kinds. *)
Lemma getFileExtension_cases (filename : string) :
  (contains "." filename = false /\ getFileExtension filename = "")
  \/ (exists pre,
        filename = (pre ++ "." ++ getFileExtension filename)%string
        /\ contains "." (getFileExtension filename) = false).
Proof.
  destruct (find_last_of "." filename) as [i|] eqn:E.
  - right. apply find_last_of_some in E as (pre & suf & -> & _ & Hs).
    exists pre. change (String "." suf) with ("." ++ suf)%string.
    now rewrite (getFileExtension_last_dot pre suf Hs).
  - left. apply find_last_of_none in E.
    split; [exact E | now apply getFileExtension_no_dot].
Qed.

Lemma plain_line_uncolored (line : string) :
  existsb is_colored (plain_line line) = false.
Proof.
  unfold plain_line. destruct (empty line); reflexivity.
Qed.

End CatalogFacts.

Import Str Regex Highlighter Scenarios.
Import StrFacts RegexFacts ScanFacts CatalogFacts.

(* ================================================================== *)
(** ** Content preservation and termination *)
(* ================================================================== *)

(** With the rule [x*] the scan of the line [a] finds an empty match at
    index 0 again and again. *)
Lemma star_rule_loops (fuel : nat) : scan fuel "a" [star_rule] = None.
Proof.
  induction fuel as [|fuel IH]; [reflexivity|].
  change (scan (S fuel) "a" [star_rule])
    with (match scan fuel "a" [star_rule] with
          | None => None
          | Some outs => Some ([Colored blue ""] ++ outs)
          end).
  now rewrite IH.
Qed.

(** C1, as stated, fails: with the rule set made of the one rule [x*],
    [highlightAndPrintLine] never returns on the line [a], so no output
    with the markers removed equals the line and its terminator. *)
Lemma content_preservation_needs_progress :
  ~ (forall line rules,
       exists fuel out,
         highlightAndPrintLine fuel line rules = Some out
         /\ strip_markers out = (line ++ nl)%string).
Proof.
  intros H. destruct (H "a" [star_rule]) as (fuel & out & Hout & _).
  unfold highlightAndPrintLine in Hout.
  now rewrite star_rule_loops in Hout.
Qed.

(** C1, amended: for every line and every rule set, whenever
    [highlightAndPrintLine] returns, its output with the colour markers
    removed is the line followed by exactly one line terminator, and the
    plain and coloured spans tile that text from left to right; and it
    does return, with the same output for any fuel of at least the
    length of the line, when every match of every rule moves the scan
    forward (as with every rule set of the catalogue). *)
Theorem content_preservation (line : string) (rules : list HighlightRule) :
  (forall fuel out,
     highlightAndPrintLine fuel line rules = Some out ->
     strip_markers out = (line ++ nl)%string
     /\ tiles (line ++ nl) out)
  /\ ((forall rule, In rule rules -> advances (pattern rule)) ->
      exists out,
        forall fuel,
          String.length line <= fuel ->
          highlightAndPrintLine fuel line rules = Some out).
Proof.
  split.
  - intros fuel out H. unfold highlightAndPrintLine in H.
    destruct (scan fuel line rules) as [o|] eqn:E; [|discriminate].
    injection H as <-. apply scan_content in E.
    assert (S : strip_markers (o ++ [Plain nl]) = (line ++ nl)%string).
    { rewrite strip_markers_app, E. reflexivity. }
    split; [exact S | now apply strip_markers_tiles].
  - intros Hadv.
    destruct (scan_terminates rules Hadv (String.length line) line
                (le_n _)) as [o Ho].
    exists (o ++ [Plain nl]). intros fuel Hfuel.
    unfold highlightAndPrintLine.
    now rewrite (scan_fuel_mono rules _ fuel line o Hfuel Ho).
Qed.

Lemma content_preservation_witness :
  exists out,
    highlightAndPrintLine 22 c_line (getHighlightRules "cpp") = Some out
    /\ strip_markers out = (c_line ++ nl)%string
    /\ tiles (c_line ++ nl) out.
Proof.
  destruct (content_preservation c_line (getHighlightRules "cpp"))
    as [Hpart Hterm].
  destruct (Hterm (catalog_advances "cpp")) as [out Hout].
  exists out.
  assert (H : highlightAndPrintLine 22 c_line (getHighlightRules "cpp")
              = Some out) by (apply Hout; vm_compute; lia).
  split; [exact H | exact (Hpart 22 out H)].
Defined.

(** C9: no rule of the catalogue matches the empty string, so every
    iteration of the scan that finds a match has
    [earliest_pos + earliest_len >= 1] and leaves a strictly shorter
    [remaining]; hence the loop ends for every line, within as many
    iterations as the line has characters. *)
Theorem catalog_scan_terminates (ext : string) (line : string) :
  (forall rule s p l,
     In rule (getHighlightRules ext) ->
     regex_search s (pattern rule) = Some (p, l) -> 1 <= l)
  /\ (forall remaining p l code,
        find_earliest remaining (getHighlightRules ext) = Some (p, l, code) ->
        1 <= p + l
        /\ String.length (substr_from (p + l) remaining)
           < String.length remaining)
  /\ exists out,
       forall extra,
         highlightAndPrintLine (String.length line + extra) line
           (getHighlightRules ext) = Some out.
Proof.
  assert (Hlen : forall rule s p l,
             In rule (getHighlightRules ext) ->
             regex_search s (pattern rule) = Some (p, l) -> 1 <= l).
  { intros rule s p l Hin Hs. apply regex_search_bounds in Hs.
    pose proof (catalog_min_len ext rule Hin). lia. }
  split; [exact Hlen|]. split.
  - intros remaining p l code F.
    pose proof (find_earliest_bounds _ _ _ _ _ F) as Hb.
    apply find_earliest_sound in F as (rule & Hin & Hs & _).
    pose proof (Hlen rule remaining p l Hin Hs).
    rewrite length_substr_from. lia.
  - destruct (scan_terminates (getHighlightRules ext) (catalog_advances ext)
                (String.length line) line (le_n _)) as [o Ho].
    exists (o ++ [Plain nl]). intros extra. unfold highlightAndPrintLine.
    now rewrite (scan_fuel_mono _ _ (String.length line + extra) line o
                   (Nat.le_add_r _ _) Ho).
Qed.

Lemma catalog_scan_terminates_witness :
  regex_search c_line number = Some (8, 2)
  /\ 1 <= 2
  /\ exists out,
       highlightAndPrintLine (String.length c_line + 0) c_line
         (getHighlightRules "c") = Some out.
Proof.
  destruct (catalog_scan_terminates "c" c_line) as (Hlen & _ & out & Hout).
  split; [vm_compute; reflexivity|]. split.
  - apply (Hlen (mkRule number magenta) c_line 8 2).
    + simpl. tauto.
    + vm_compute. reflexivity.
  - exists out. apply Hout.
Defined.

(* ================================================================== *)
(** ** The empty rule set *)
(* ================================================================== *)

(** C3: with the empty rule set, [highlightAndPrintLine] prints the
    line, if it is not empty, and one line terminator: the stream
    receives exactly the line followed by the terminator, and no chunk
    is coloured.  One unit of fuel is enough. *)
Theorem empty_rule_set_identity (line : string) (extra : nat) :
  highlightAndPrintLine (1 + extra) line [] = Some (plain_line line)
  /\ render (plain_line line) = (line ++ nl)%string
  /\ existsb is_colored (plain_line line) = false
  /\ plain_line "" = [Plain nl].
Proof.
  split; [apply highlight_no_rules|].
  split; [apply render_plain_line|].
  split; [apply plain_line_uncolored | reflexivity].
Qed.

(* ================================================================== *)
(** ** The tie-break *)
(* ================================================================== *)

Lemma nth_error_in_prefix {A} (pre : list A) (x : A) (post : list A) (B : A) :
  In B pre ->
  exists j, j < length pre /\ nth_error (pre ++ x :: post) j = Some B.
Proof.
  intros H. apply In_nth_error in H as [j Hj].
  assert (j < length pre) by (apply nth_error_Some; congruence).
  exists j. split; [assumption|]. now rewrite nth_error_app1.
Qed.

Lemma nth_error_in_suffix {A} (pre : list A) (x : A) (post : list A) (B : A) :
  In B post ->
  exists j, nth_error (pre ++ x :: post) j = Some B.
Proof.
  intros H. apply In_nth_error in H as [j Hj].
  exists (length pre + S j).
  rewrite nth_error_app2 by lia.
  replace (length pre + S j - length pre) with (S j) by lia. exact Hj.
Qed.

(** C2: in an iteration of the scan over [remaining], let [A], the rule
    at index [k], match at [p], let no rule match before [p], and let
    no rule declared before [A] match at [p].  Then [A] wins: the
    iteration prints the text before [p] plain (nothing if [p] is 0),
    the match of [A] in the colour of [A], and goes on after that
    match, whatever the rules declared after [A] match at [p]. *)
Theorem tie_break_earliest_rule_wins (remaining : string)
  (rules : list HighlightRule) (k : nat) (A : HighlightRule) (p l : nat) :
  nth_error rules k = Some A ->
  regex_search remaining (pattern A) = Some (p, l) ->
  (forall j B q m,
     nth_error rules j = Some B ->
     regex_search remaining (pattern B) = Some (q, m) ->
     p <= q /\ (q = p -> k <= j)) ->
  find_earliest remaining rules = Some (p, l, color_code A)
  /\ iteration remaining rules
     = ((if (0 <? p)%nat then [Plain (substr 0 p remaining)] else [])
        ++ [Colored (color_code A) (substr p l remaining)],
        Some (substr_from (p + l) remaining)).
Proof.
  intros Hk HA Hmin.
  assert (F : find_earliest remaining rules = Some (p, l, color_code A)).
  { destruct (nth_error_split rules k Hk) as (pre & post & -> & Hlen).
    unfold find_earliest. rewrite fold_left_app. simpl.
    assert (Hpre : before p (fold_left (consider remaining) pre None) = true).
    { apply fold_consider_later; [|reflexivity].
      intros B q m HB Hs.
      destruct (nth_error_in_prefix pre A post B HB) as (j & Hj & Hn).
      destruct (Hmin j B q m Hn Hs) as [Hle Htie].
      destruct (Nat.eq_dec q p) as [E|E]; [|lia].
      specialize (Htie E). lia. }
    unfold consider at 2. rewrite HA, Hpre.
    apply fold_consider_kept.
    intros B q m HB Hs.
    destruct (nth_error_in_suffix pre A post B HB) as (j & Hn).
    now destruct (Hmin j B q m Hn Hs). }
  split; [exact F|].
  unfold iteration. now rewrite F.
Qed.

Lemma tie_break_earliest_rule_wins_witness :
  regex_search "x12" (pattern digit_rule) = Some (1, 1)
  /\ regex_search "x12" (pattern digits_rule) = Some (1, 2)
  /\ iteration "x12" [digit_rule; digits_rule]
     = ([Plain "x"; Colored (color_code digit_rule) "1"], Some "2").
Proof.
  split; [reflexivity|]. split; [reflexivity|].
  apply (tie_break_earliest_rule_wins "x12" [digit_rule; digits_rule]
           0 digit_rule 1 1).
  - reflexivity.
  - reflexivity.
  - intros [|[|j]] B q m HB Hs; simpl in HB.
    + injection HB as <-. vm_compute in Hs. injection Hs as <- <-. lia.
    + injection HB as <-. vm_compute in Hs. injection Hs as <- <-. lia.
    + destruct j; discriminate.
Defined.

(* ================================================================== *)
(** ** The two scenarios *)
(* ================================================================== *)

(** C4: with the rules of a C-family extension, the line
    [int x = 42; // comment] is printed as [int] in the keyword colour,
    [ x = ] plain, [42] in the number colour, [; ] plain and
    [// comment] in the comment colour, which is the last span before
    the line terminator.  Three iterations of the scan do it. *)
Theorem c_family_scenario (ext : string) (extra : nat) :
  In ext c_family ->
  highlightAndPrintLine (3 + extra) c_line (getHighlightRules ext)
  = Some [ Colored blue "int"; Plain " x = "; Colored magenta "42";
           Plain "; "; Colored gray "// comment"; Plain nl ].
Proof.
  intros H. rewrite (getHighlightRules_c_family ext H).
  apply (highlight_fuel_mono cpp_rules 3); [lia|].
  vm_compute. reflexivity.
Qed.

Lemma c_family_scenario_witness :
  highlightAndPrintLine (3 + 0) c_line (getHighlightRules "hpp")
  = Some [ Colored blue "int"; Plain " x = "; Colored magenta "42";
           Plain "; "; Colored gray "// comment"; Plain nl ].
Proof.
  apply (c_family_scenario "hpp" 0). simpl. tauto.
Defined.

(** C5: with the Python rules, the line [s = ] followed by the quoted
    text [value 123] is printed as [s = ] plain and the whole quoted
    text, quotes included, as one span in the string colour; no span
    carries [123] alone.  One iteration of the scan does it. *)
Theorem python_string_scenario (extra : nat) :
  highlightAndPrintLine (1 + extra) py_line (getHighlightRules "py")
  = Some [ Plain "s = "; Colored orange py_string; Plain nl ]
  /\ forall out code,
       highlightAndPrintLine (1 + extra) py_line (getHighlightRules "py")
       = Some out ->
       ~ In (Colored code "123") out.
Proof.
  assert (H : highlightAndPrintLine (1 + extra) py_line
                (getHighlightRules "py")
              = Some [ Plain "s = "; Colored orange py_string; Plain nl ]).
  { apply (highlight_fuel_mono py_rules 1); [lia|].
    vm_compute. reflexivity. }
  split; [exact H|].
  intros out code Hout. rewrite H in Hout. injection Hout as <-.
  simpl. intros [E|[E|[E|[]]]]; discriminate.
Qed.

Lemma python_string_scenario_witness :
  ~ In (Colored magenta "123")
      [ Plain "s = "; Colored orange py_string; Plain nl ].
Proof.
  destruct (python_string_scenario 0) as [H Hno].
  exact (Hno _ magenta H).
Defined.

(* ================================================================== *)
(** ** The command line and the file extension *)
(* ================================================================== *)

Lemma main_opened (fuel : nat) (open : string -> option (list string))
  (prog filename : string) (more lines : list string) :
  open filename = Some lines ->
  main fuel open prog (filename :: more)
  = match
      print_lines fuel lines (getHighlightRules (getFileExtension filename))
    with
    | None => None
    | Some out => Some (mkOutcome out "" 0)
    end.
Proof.
  intros H. unfold main. now rewrite H.
Qed.

(** A file whose extension selects no rules is printed as it is. *)
Lemma main_without_rules (fuel : nat) (open : string -> option (list string))
  (prog filename : string) (more lines : list string) :
  open filename = Some lines ->
  getHighlightRules (getFileExtension filename) = [] ->
  main (S fuel) open prog (filename :: more)
  = Some (mkOutcome (concat (map plain_line lines)) "" 0).
Proof.
  intros Ho Hr. rewrite (main_opened _ _ _ _ _ _ Ho), Hr.
  now rewrite print_lines_no_rules.
Qed.

(** C6: an extension outside [cpp], [hpp], [c], [h], [py] selects the
    empty rule sequence; every line is then printed unmodified, with
    no coloured chunk; and a readable file with such an extension is
    printed line by line, each line followed by a terminator, nothing
    goes to the error stream and the exit code is 0. *)
Theorem unsupported_language_is_not_an_error (ext : string) :
  ~ In ext supported ->
  getHighlightRules ext = []
  /\ (forall line extra,
        highlightAndPrintLine (1 + extra) line (getHighlightRules ext)
        = Some (plain_line line)
        /\ render (plain_line line) = (line ++ nl)%string
        /\ existsb is_colored (plain_line line) = false)
  /\ (forall extra open prog filename more lines,
        getFileExtension filename = ext ->
        open filename = Some lines ->
        exists out,
          main (1 + extra) open prog (filename :: more)
          = Some (mkOutcome out "" 0)
          /\ render out
             = concat_all (map (fun line => (line ++ nl)%string) lines)
          /\ existsb is_colored out = false).
Proof.
  intros H. pose proof (getHighlightRules_unsupported ext H) as E.
  split; [exact E|]. split.
  - intros line extra. rewrite E.
    split; [apply highlight_no_rules|].
    split; [apply render_plain_line | apply plain_line_uncolored].
  - intros extra open prog filename more lines Hext Hopen.
    exists (concat (map plain_line lines)). split.
    + apply main_without_rules; [exact Hopen | now rewrite Hext].
    + split; [apply render_plain_lines | apply plain_lines_uncolored].
Qed.

Lemma unsupported_language_is_not_an_error_witness :
  getHighlightRules "txt" = []
  /\ exists out,
       main (1 + 0) (one_file "notes.txt" ["int x;"; ""]) "code2ascii"
         ["notes.txt"]
       = Some (mkOutcome out "" 0)
       /\ render out
          = concat_all (map (fun line => (line ++ nl)%string) ["int x;"; ""])
       /\ existsb is_colored out = false.
Proof.
  assert (H : ~ In "txt" supported).
  { unfold supported, c_family. simpl. intuition discriminate. }
  destruct (unsupported_language_is_not_an_error "txt" H) as (E & _ & Hmain).
  split; [exact E|].
  apply (Hmain 0 (one_file "notes.txt" ["int x;"; ""]) "code2ascii"
           "notes.txt" [] ["int x;"; ""]); reflexivity.
Defined.

(** C7, as stated, fails: with two arguments after the program name the
    program does not report a usage error; it prints the file named by
    the first one and exits with code 0. *)
Lemma extra_arguments_are_accepted :
  length ["a.txt"; "extra"] <> 1
  /\ main 1 (one_file "a.txt" ["x"]) "code2ascii" ["a.txt"; "extra"]
     = Some (mkOutcome [Plain "x"; Plain nl] "" 0)
  /\ ~ (exists fuel msg,
          main fuel (one_file "a.txt" ["x"]) "code2ascii" ["a.txt"; "extra"]
          = Some (mkOutcome [] msg 1)).
Proof.
  split; [simpl; lia|]. split; [reflexivity|].
  intros (fuel & msg & H). destruct fuel; discriminate.
Qed.

(** C7, amended: when no argument follows the program name
    ([argc < 2]), [main] writes the usage message to the error stream,
    returns 1 and prints nothing; when arguments follow, those after
    the first do not matter. *)
Theorem usage_error_without_argument (fuel : nat)
  (open : string -> option (list string)) (prog : string) :
  main fuel open prog []
  = Some (mkOutcome [] ("Usage: " ++ prog ++ " filename" ++ nl) 1)
  /\ forall filename more,
       main fuel open prog (filename :: more)
       = main fuel open prog [filename].
Proof.
  split; reflexivity.
Qed.

(** C8: [getFileExtension] returns the empty string for a name without
    a dot, and otherwise what follows the last dot; [main] selects the
    rules by looking that value up with [getHighlightRules], which
    answers with rules exactly for the five strings [cpp], [hpp], [c],
    [h] and [py], compared character by character. *)
Theorem extension_resolution (filename : string) :
  (contains "." filename = false -> getFileExtension filename = "")
  /\ (forall pre suf,
        filename = (pre ++ "." ++ suf)%string ->
        contains "." suf = false ->
        getFileExtension filename = suf)
  /\ ((contains "." filename = false /\ getFileExtension filename = "")
      \/ (exists pre,
            filename = (pre ++ "." ++ getFileExtension filename)%string
            /\ contains "." (getFileExtension filename) = false))
  /\ (forall fuel open prog more lines,
        open filename = Some lines ->
        main fuel open prog (filename :: more)
        = match
            print_lines fuel lines
              (getHighlightRules (getFileExtension filename))
          with
          | None => None
          | Some out => Some (mkOutcome out "" 0)
          end)
  /\ (forall ext, getHighlightRules ext <> [] <-> In ext supported)
  /\ getHighlightRules "CPP" = []
  /\ getHighlightRules "Py" = [].
Proof.
  split; [apply getFileExtension_no_dot|].
  split; [intros pre suf ->; apply getFileExtension_last_dot|].
  split; [apply getFileExtension_cases|].
  split; [intros fuel open prog more lines H; now apply main_opened|].
  split; [|split; reflexivity].
  intros ext. split; apply getHighlightRules_supported.
Qed.

Lemma extension_resolution_witness :
  getFileExtension "Makefile" = ""
  /\ getFileExtension "archive.tar.py" = "py"
  /\ main 9 (one_file "archive.tar.py" ["x = 1"]) "code2ascii"
       ["archive.tar.py"]
     = Some (mkOutcome [Plain "x = "; Colored magenta "1"; Plain nl] "" 0).
Proof.
  split; [|split].
  - apply (proj1 (extension_resolution "Makefile")). reflexivity.
  - apply (proj1 (proj2 (extension_resolution "archive.tar.py"))
             "archive.tar" "py"); reflexivity.
  - rewrite (proj1 (proj2 (proj2 (proj2
               (extension_resolution "archive.tar.py"))))
               9 (one_file "archive.tar.py" ["x = 1"]) "code2ascii" []
               ["x = 1"] eq_refl).
    vm_compute. reflexivity.
Defined.

Lemma separator_unsupported (ext : string) :
  contains "/" ext = true -> ~ In ext supported.
Proof.
  unfold supported, c_family. simpl.
  intros H [<-|[<-|[<-|[<-|[<-|[]]]]]]; vm_compute in H; discriminate.
Qed.

(** C10: [getFileExtension] looks at the whole path.  When what follows
    the last dot of the path contains a path separator, as in
    [dir.v2/main], the extension returned is that text, separator
    included; it is none of the supported identifiers, so no rules are
    selected and a readable file at that path is printed without any
    coloured chunk. *)
Theorem dotted_directory_path (pre suf : string) :
  contains "." suf = false ->
  contains "/" suf = true ->
  let path := (pre ++ "." ++ suf)%string in
  getFileExtension path = suf
  /\ contains "/" (getFileExtension path) = true
  /\ ~ In (getFileExtension path) supported
  /\ getHighlightRules (getFileExtension path) = []
  /\ forall extra open prog more lines,
       open path = Some lines ->
       main (1 + extra) open prog (path :: more)
       = Some (mkOutcome (concat (map plain_line lines)) "" 0)
       /\ existsb is_colored (concat (map plain_line lines)) = false.
Proof.
  intros Hdot Hsep path.
  assert (E : getFileExtension path = suf)
    by (apply getFileExtension_last_dot; exact Hdot).
  rewrite E.
  pose proof (separator_unsupported suf Hsep) as Hun.
  pose proof (getHighlightRules_unsupported suf Hun) as Hr.
  repeat split; try assumption.
  - apply main_without_rules; [assumption | now rewrite E].
  - apply plain_lines_uncolored.
Qed.

Lemma dotted_directory_path_witness :
  getFileExtension "dir.v2/main" = "v2/main"
  /\ main (1 + 0) (one_file "dir.v2/main" ["int x;"]) "code2ascii"
       ["dir.v2/main"]
     = Some (mkOutcome [Plain "int x;"; Plain nl] "" 0).
Proof.
  destruct (dotted_directory_path "dir" "v2/main" eq_refl eq_refl)
    as (E & _ & _ & _ & Hmain).
  split; [exact E|].
  exact (proj1 (Hmain 0 (one_file "dir.v2/main" ["int x;"]) "code2ascii"
                  [] ["int x;"] eq_refl)).
Defined.

(* ================================================================== *)
(** ** What the matcher finds *)
(* ================================================================== *)

Module MatchFacts.
Import Str Regex Highlighter Semantics StrFacts RegexFacts.

Lemma eat_step {A} (p : ascii -> bool) (k : cursor -> option A)
  (c : cursor) (e : A) :
  eat p k c = Some e -> exists c', step_to p c c' /\ k c' = Some e.
Proof.
  unfold eat. destruct (rest c) as [|a s'] eqn:E; [discriminate|].
  destruct (p a) eqn:P; [|discriminate].
  intros H. eexists; split; [|exact H].
  exists a, s'. auto.
Qed.

Section StarMatches.
Context {A : Type}.
Variable r : regex.
Variable body : (cursor -> option A) -> cursor -> option A.
Hypothesis body_matches :
  forall k c e,
    body k c = Some e -> exists c', matches r c c' /\ k c' = Some e.

Lemma star_iter_matches (k : cursor -> option A) (n : nat) :
  forall c e,
    star_iter body k n c = Some e ->
    exists c', matches (Star r) c c' /\ k c' = Some e.
Proof.
  induction n as [|n IH]; intros c e H; simpl in H.
  - exists c; split; [constructor | exact H].
  - apply or_else_some in H as [H|H].
    + apply body_matches in H as (c1 & M1 & H1).
      destruct (Nat.ltb _ _); [|discriminate].
      apply IH in H1 as (c2 & M2 & H2).
      exists c2; split; [|exact H2].
      now apply (m_star_more r c c1 c2).
    + exists c; split; [constructor | exact H].
Qed.
End StarMatches.

(** Whatever the matcher hands to its continuation is the end of a
    match of the pattern. *)
Lemma run_matches (r : regex) :
  forall A (k : cursor -> option A) c e,
    run r k c = Some e -> exists c', matches r c c' /\ k c' = Some e.
Proof.
  induction r as [ | a | | | cs | | | r1 IH1 r2 IH2 | r1 IH1 r2 IH2 | r IH ];
    intros A k c e H; simpl in H.
  - exists c; split; [constructor | exact H].
  - apply eat_step in H as (c' & S & H). exists c'; split; [now constructor | exact H].
  - apply eat_step in H as (c' & S & H). exists c'; split; [now constructor | exact H].
  - apply eat_step in H as (c' & S & H). exists c'; split; [now constructor | exact H].
  - apply eat_step in H as (c' & S & H). exists c'; split; [now constructor | exact H].
  - destruct (at_word_boundary c) eqn:B; [|discriminate].
    exists c; split; [now constructor | exact H].
  - destruct (at_end c) eqn:B; [|discriminate].
    exists c; split; [now constructor | exact H].
  - apply IH1 in H as (c1 & M1 & H1).
    apply IH2 in H1 as (c2 & M2 & H2).
    exists c2; split; [now apply (m_cat r1 r2 c c1 c2) | exact H2].
  - apply or_else_some in H as [H|H].
    + apply IH1 in H as (c1 & M1 & H1).
      exists c1; split; [now apply m_alt_l | exact H1].
    + apply IH2 in H as (c2 & M2 & H2).
      exists c2; split; [now apply m_alt_r | exact H2].
  - apply (star_iter_matches r (run r)) in H; [exact H|].
    intros k0 c0 e0. apply IH.
Qed.

Lemma last_char_app (w1 w2 : string) (pv : option ascii) :
  last_char (w1 ++ w2) pv = last_char w2 (last_char w1 pv).
Proof.
  revert pv; induction w1 as [|a w1 IH]; intros pv; simpl; auto.
Qed.

Lemma spans_refl (c : cursor) : spans c c "".
Proof. unfold spans; simpl. repeat split; lia. Qed.

Lemma spans_trans (c c1 c2 : cursor) (w1 w2 : string) :
  spans c c1 w1 -> spans c1 c2 w2 -> spans c c2 (w1 ++ w2).
Proof.
  intros (R1 & I1 & P1) (R2 & I2 & P2). repeat split.
  - now rewrite R1, R2, append_assoc.
  - rewrite length_append. lia.
  - now rewrite last_char_app, <- P1.
Qed.

Lemma step_spans (p : ascii -> bool) (c c' : cursor) :
  step_to p c c' -> exists a, p a = true /\ spans c c' (String a "").
Proof.
  intros (a & s' & R & P & ->). exists a. split; [exact P|].
  unfold spans; simpl. repeat split; [exact R | lia].
Qed.

(** Every match consumes a piece of the text. *)
Lemma matches_spans (r : regex) (c c' : cursor) :
  matches r c c' -> exists w, spans c c' w.
Proof.
  induction 1;
    try (exists ""; apply spans_refl);
    try (match goal with H : step_to _ _ _ |- _ =>
           apply step_spans in H as (b & _ & S); now exists (String b "")
         end);
    try assumption.
  - destruct IHmatches1 as [w1 S1], IHmatches2 as [w2 S2].
    exists (w1 ++ w2)%string. now apply (spans_trans c c1 c2).
  - destruct IHmatches1 as [w1 S1], IHmatches2 as [w2 S2].
    exists (w1 ++ w2)%string. now apply (spans_trans c c1 c2).
Qed.

Lemma spans_unique (c c' : cursor) (w1 w2 : string) :
  spans c c' w1 -> spans c c' w2 -> w1 = w2.
Proof.
  intros (R1 & I1 & _) (R2 & I2 & _).
  assert (L : String.length w1 = String.length w2) by lia.
  rewrite R1 in R2. clear - R2 L.
  revert w2 R2 L; induction w1 as [|a w1 IH]; intros [|b w2] R L;
    simpl in *; try discriminate; [reflexivity|].
  injection R as -> R. f_equal. apply IH; [exact R | lia].
Qed.

Lemma search_from_matches (r : regex) (s : string) :
  forall pos pv p l,
    search_from r pos pv s = Some (p, l) ->
    exists pre post c',
      s = (pre ++ post)%string
      /\ p = pos + String.length pre
      /\ matches r (mkCursor p (last_char pre pv) post) c'
      /\ idx c' = p + l.
Proof.
  induction s as [|a s IH]; intros pos pv p l H; simpl in H.
  - destruct (run r _ _) as [e|] eqn:E; [|discriminate].
    injection H as <- <-.
    apply run_matches in E as (c' & M & K). injection K as <-.
    exists "", "", c'. simpl.
    destruct (matches_spans _ _ _ M) as (w & _ & I & _). simpl in I.
    rewrite Nat.add_0_r.
    split; [reflexivity|]. split; [reflexivity|]. split; [exact M | lia].
  - destruct (run r _ _) as [e|] eqn:E.
    + injection H as <- <-.
      apply run_matches in E as (c' & M & K). injection K as <-.
      exists "", (String a s), c'. simpl.
      destruct (matches_spans _ _ _ M) as (w & _ & I & _). simpl in I.
      rewrite Nat.add_0_r.
      split; [reflexivity|]. split; [reflexivity|]. split; [exact M | lia].
    + apply IH in H as (pre & post & c' & -> & -> & M & I).
      exists (String a pre), post, c'. simpl.
      replace (pos + S (String.length pre)) with (S pos + String.length pre)
        by lia.
      split; [reflexivity|]. split; [reflexivity|]. split; [exact M | exact I].
Qed.

(** A match reported by [regex_search]: the text is cut into what
    precedes the match, the match and what follows it, and the pattern
    matches from the cursor between the first two to the cursor between
    the last two. *)
Lemma regex_search_matches (s : string) (r : regex) (p l : nat) :
  regex_search s r = Some (p, l) ->
  exists pre w post,
    s = (pre ++ w ++ post)%string
    /\ String.length pre = p /\ String.length w = l
    /\ matches r (mkCursor p (last_char pre None) (w ++ post))
         (mkCursor (p + l) (last_char w (last_char pre None)) post).
Proof.
  unfold regex_search. intros H.
  apply search_from_matches in H as (pre & post0 & c' & -> & -> & M & I).
  destruct (matches_spans _ _ _ M) as (w & R & I' & P). simpl in *.
  exists pre, w, (rest c'). subst post0.
  assert (L : String.length w = l) by lia.
  repeat split; try assumption.
  replace (mkCursor (String.length pre + l)
             (last_char w (last_char pre None)) (rest c')) with c'; [exact M|].
  destruct c' as [i pv rs]; simpl in *. now subst.
Qed.

Lemma substring_of_parts (pre w post : string) :
  substr (String.length pre) (String.length w) (pre ++ w ++ post) = w.
Proof.
  unfold substr. induction pre as [|a pre IH]; simpl; [|exact IH].
  induction w as [|b w IHw]; simpl.
  - apply substring_zero_len.
  - now rewrite IHw.
Qed.

(** *** Taking matches apart *)

Lemma inv_cat (r1 r2 : regex) (c c' : cursor) :
  matches (Cat r1 r2) c c' ->
  exists c1, matches r1 c c1 /\ matches r2 c1 c'.
Proof. intros H. inversion H; subst. eauto. Qed.

Lemma inv_alt (r1 r2 : regex) (c c' : cursor) :
  matches (Alt r1 r2) c c' -> matches r1 c c' \/ matches r2 c c'.
Proof. intros H. inversion H; subst; auto. Qed.

Lemma inv_boundary (c c' : cursor) :
  matches WordBoundary c c' -> c' = c /\ at_word_boundary c = true.
Proof. intros H. inversion H; subst; auto. Qed.

Lemma inv_end (c c' : cursor) :
  matches EndOfInput c c' -> c' = c /\ rest c = "".
Proof.
  intros H. inversion H; subst. split; [reflexivity|].
  now apply empty_true.
Qed.

Lemma inv_eps (c c' : cursor) : matches Eps c c' -> c' = c.
Proof. intros H. now inversion H. Qed.

Lemma inv_chr (a : ascii) (c c' : cursor) :
  matches (Chr a) c c' -> spans c c' (String a "").
Proof.
  intros H. inversion H as [ | ? ? ? St | | | | | | | | | | ]; subst.
  apply step_spans in St as (b & E & Sp).
  apply Ascii.eqb_eq in E. now subst.
Qed.

Lemma inv_any (c c' : cursor) :
  matches AnyChar c c' ->
  exists a, is_any a = true /\ spans c c' (String a "").
Proof. intros H. inversion H; subst. now apply step_spans. Qed.

Lemma inv_digit (c c' : cursor) :
  matches Digit c c' ->
  exists a, is_digit a = true /\ spans c c' (String a "").
Proof. intros H. inversion H; subst. now apply step_spans. Qed.

Lemma inv_none_of (cs : string) (c c' : cursor) :
  matches (NoneOf cs) c c' ->
  exists a, contains a cs = false /\ spans c c' (String a "").
Proof.
  intros H. inversion H as [ | | | | ? ? ? St | | | | | | | ]; subst.
  apply step_spans in St as (b & E & Sp).
  exists b. split; [now apply negb_true_iff in E | exact Sp].
Qed.

(** The rounds of a star, each round seen as a list of items. *)
Lemma star_items (P : string -> Prop) (r : regex) :
  (forall c c',
     matches r c c' ->
     exists items, spans c c' (concat_all items) /\ Forall P items) ->
  forall c c',
    matches (Star r) c c' ->
    exists items, spans c c' (concat_all items) /\ Forall P items.
Proof.
  intros Hr c c' M. remember (Star r) as sr eqn:E.
  induction M; try discriminate.
  - exists []. split; [apply spans_refl | constructor].
  - injection E as ->.
    destruct (Hr _ _ M1) as (i1 & S1 & F1).
    destruct (IHM2 eq_refl) as (i2 & S2 & F2).
    exists (i1 ++ i2). split.
    + rewrite concat_all_app. now apply (spans_trans c c1 c2).
    + apply Forall_app. now split.
Qed.

Lemma concat_all_chars (p : ascii -> bool) (items : list string) :
  Forall (fun it => exists a, it = String a "" /\ p a = true) items ->
  all_chars p (concat_all items) = true.
Proof.
  induction 1 as [|it items (a & -> & Pa) _ IH]; simpl; [reflexivity|].
  now rewrite Pa, IH.
Qed.

(** A star over single characters consumes characters of that kind. *)
Lemma star_chars (p : ascii -> bool) (r : regex) :
  (forall c c',
     matches r c c' -> exists a, p a = true /\ spans c c' (String a "")) ->
  forall c c',
    matches (Star r) c c' ->
    exists w, spans c c' w /\ all_chars p w = true.
Proof.
  intros Hr c c' M.
  apply (star_items (fun it => exists a, it = String a "" /\ p a = true))
    in M as (items & S & F).
  - exists (concat_all items). split; [exact S | now apply concat_all_chars].
  - intros c0 c0' M0. apply Hr in M0 as (a & Pa & S0).
    exists [String a ""]. simpl. split; [exact S0|].
    constructor; [eauto | constructor].
Qed.

Lemma matches_Lit (w : string) :
  forall c c', matches (Lit w) c c' -> spans c c' w.
Proof.
  induction w as [|a w IH]; intros c c' M.
  - apply inv_eps in M as ->. apply spans_refl.
  - destruct w as [|b w].
    + now apply inv_chr.
    + change (Lit (String a (String b w)))
        with (Cat (Chr a) (Lit (String b w))) in M.
      apply inv_cat in M as (c1 & M1 & M2).
      apply inv_chr in M1. apply IH in M2.
      exact (spans_trans c c1 c' (String a "") (String b w) M1 M2).
Qed.

Lemma matches_AltOf (ws : list string) :
  ws <> [] ->
  forall c c',
    matches (AltOf ws) c c' -> exists w, In w ws /\ spans c c' w.
Proof.
  induction ws as [|w ws IH]; intros Hne c c' M; [contradiction|].
  destruct ws as [|w' ws].
  - exists w. split; [now left | now apply matches_Lit].
  - change (AltOf (w :: w' :: ws))
      with (Alt (Lit w) (AltOf (w' :: ws))) in M.
    apply inv_alt in M as [M|M].
    + exists w. split; [now left | now apply matches_Lit].
    + apply IH in M as (w0 & Hin & S); [|discriminate].
      exists w0. split; [now right | exact S].
Qed.

Lemma matches_plus_digit (c c' : cursor) :
  matches (Plus Digit) c c' ->
  exists ds, spans c c' ds /\ is_digits ds = true.
Proof.
  intros M. apply inv_cat in M as (c1 & M1 & M2).
  apply inv_digit in M1 as (a & Da & S1).
  apply (star_chars is_digit) in M2 as (w & S2 & Dw);
    [|intros; now apply inv_digit].
  exists (String a w). split.
  - exact (spans_trans c c1 c' (String a "") w S1 S2).
  - unfold is_digits. simpl. now rewrite Da, Dw.
Qed.

(** *** Characters at the ends of a text *)

Lemma last_char_all (p : ascii -> bool) (w : string) :
  forall pv,
    all_chars p w = true -> w <> "" ->
    exists b, last_char w pv = Some b /\ p b = true.
Proof.
  induction w as [|a w IH]; intros pv H Hne; [contradiction|].
  simpl in *. apply andb_true_iff in H as [Pa Pw].
  destruct w as [|a' w].
  - exists a. auto.
  - apply IH; [exact Pw | discriminate].
Qed.

Lemma is_digit_word (a : ascii) : is_digit a = true -> is_word a = true.
Proof. unfold is_word, is_digit. now intros ->. Qed.

Lemma all_chars_weaken (p q : ascii -> bool) (w : string) :
  (forall a, p a = true -> q a = true) ->
  all_chars p w = true -> all_chars q w = true.
Proof.
  intros Hpq. induction w as [|a w IH]; simpl; [reflexivity|].
  intros H. apply andb_true_iff in H as [Pa Pw].
  now rewrite (Hpq a Pa), IH.
Qed.

Lemma all_chars_app (p : ascii -> bool) (w1 w2 : string) :
  all_chars p (w1 ++ w2) = all_chars p w1 && all_chars p w2.
Proof.
  induction w1 as [|a w1 IH]; simpl; [reflexivity|].
  now rewrite IH, andb_assoc.
Qed.

(** A word boundary before a text that starts with a word character:
    no word character precedes. *)
Lemma boundary_before (i : nat) (pv : option ascii) (a : ascii) (s : string) :
  is_word a = true ->
  at_word_boundary (mkCursor i pv (String a s)) = true ->
  is_word_opt pv = false.
Proof.
  unfold at_word_boundary, prev_is, next_is, is_word_opt. simpl.
  intros ->. destruct pv as [b|]; [|reflexivity].
  now destruct (is_word b).
Qed.

(** A word boundary after a word character: no word character
    follows. *)
Lemma boundary_after (i : nat) (b : ascii) (s : string) :
  is_word b = true ->
  at_word_boundary (mkCursor i (Some b) s) = true ->
  is_word_opt (first_char s) = false.
Proof.
  unfold at_word_boundary, prev_is, next_is, is_word_opt, first_char. simpl.
  intros ->. destruct s as [|a s]; [reflexivity|].
  now destruct (is_word a).
Qed.

End MatchFacts.

Import Semantics MatchFacts.

(* ================================================================== *)
(** ** The patterns of the catalogue *)
(* ================================================================== *)

Lemma keyword_match (ws : list string) (s : string) (p l : nat) :
  ws <> [] ->
  forallb is_identifier ws = true ->
  regex_search s (keyword_pattern ws) = Some (p, l) ->
  exists pre w post,
    s = (pre ++ w ++ post)%string
    /\ String.length pre = p /\ String.length w = l
    /\ In w ws
    /\ is_word_opt (last_char pre None) = false
    /\ is_word_opt (first_char post) = false.
Proof.
  intros Hne Hid H.
  apply regex_search_matches in H as (pre & w & post & -> & Lp & Lw & M).
  change (keyword_pattern ws)
    with (Cat WordBoundary (Cat (AltOf ws) WordBoundary)) in M.
  apply inv_cat in M as (c1 & B1 & M).
  apply inv_boundary in B1 as [-> B1].
  apply inv_cat in M as (c2 & M & B2).
  apply inv_boundary in B2 as [E2 B2]. symmetry in E2. subst c2.
  apply (matches_AltOf ws Hne) in M as (w0 & Hin & S0).
  assert (S : spans (mkCursor p (last_char pre None) (w ++ post))
                (mkCursor (p + l) (last_char w (last_char pre None)) post) w).
  { unfold spans; simpl. repeat split. lia. }
  rewrite (spans_unique _ _ _ _ S0 S) in Hin. clear S0 S w0.
  exists pre, w, post. repeat split; try assumption.
  - assert (I : is_identifier w = true)
      by (rewrite forallb_forall in Hid; now apply Hid).
    unfold is_identifier in I. apply andb_true_iff in I as [Iw Ia].
    destruct w as [|a w]; [discriminate|].
    simpl in Ia. apply andb_true_iff in Ia as [Wa _].
    exact (boundary_before _ _ _ _ Wa B1).
  - assert (I : is_identifier w = true)
      by (rewrite forallb_forall in Hid; now apply Hid).
    unfold is_identifier in I. apply andb_true_iff in I as [Iw Ia].
    assert (Hw : w <> "") by (intros ->; discriminate).
    destruct (last_char_all is_word w (last_char pre None) Ia Hw)
      as (b & Eb & Wb).
    rewrite Eb in B2. exact (boundary_after _ _ _ Wb B2).
Qed.

(** X1: a match of the keyword pattern built from a non-empty list of
    identifiers is one of the listed words, standing as a whole word:
    the character before it, if any, and the character after it, if
    any, are not word characters. *)
Theorem keyword_is_whole_word (ws : list string) (s : string) (p l : nat) :
  ws <> [] ->
  forallb is_identifier ws = true ->
  regex_search s (keyword_pattern ws) = Some (p, l) ->
  exists pre w post,
    s = (pre ++ w ++ post)%string
    /\ String.length pre = p /\ String.length w = l
    /\ In w ws
    /\ is_word_opt (last_char pre None) = false
    /\ is_word_opt (first_char post) = false.
Proof.
  exact (keyword_match ws s p l).
Qed.

Lemma keyword_is_whole_word_witness :
  exists pre w post,
    "print(int)" = (pre ++ w ++ post)%string
    /\ String.length pre = 6 /\ String.length w = 3
    /\ In w cpp_keywords
    /\ is_word_opt (last_char pre None) = false
    /\ is_word_opt (first_char post) = false.
Proof.
  apply (keyword_is_whole_word cpp_keywords "print(int)" 6 3).
  - discriminate.
  - vm_compute. reflexivity.
  - vm_compute. reflexivity.
Defined.

Lemma number_match (s : string) (p l : nat) :
  regex_search s number = Some (p, l) ->
  exists pre ds frac post,
    s = (pre ++ (ds ++ frac) ++ post)%string
    /\ String.length pre = p /\ String.length (ds ++ frac) = l
    /\ is_digits ds = true
    /\ (frac = ""
        \/ exists ds', frac = ("." ++ ds')%string /\ is_digits ds' = true)
    /\ is_word_opt (last_char pre None) = false
    /\ is_word_opt (first_char post) = false.
Proof.
  intros H.
  apply regex_search_matches in H as (pre & w & post & -> & Lp & Lw & M).
  change number
    with (Cat WordBoundary
            (Cat (Plus Digit)
               (Cat (Opt (Cat (Chr ".") (Plus Digit))) WordBoundary))) in M.
  apply inv_cat in M as (c1 & B1 & M).
  apply inv_boundary in B1 as [-> B1].
  apply inv_cat in M as (c2 & Mi & M).
  apply inv_cat in M as (c3 & Mf & B2).
  apply inv_boundary in B2 as [E3 B2]. symmetry in E3. subst c3.
  apply matches_plus_digit in Mi as (ds & Si & Di).
  assert (Hf : exists frac,
             spans c2 (mkCursor (p + l) (last_char w (last_char pre None))
                         post) frac
             /\ (frac = ""
                 \/ exists ds',
                      frac = ("." ++ ds')%string /\ is_digits ds' = true)).
  { apply inv_alt in Mf as [Mf|Mf].
    - apply inv_cat in Mf as (c4 & Md & Mg).
      apply inv_chr in Md. apply matches_plus_digit in Mg as (ds' & Sg & Dg).
      exists ("." ++ ds')%string. split; [|eauto].
      exact (spans_trans _ _ _ _ _ Md Sg).
    - apply inv_eps in Mf. subst c2. exists "". split; [apply spans_refl | auto]. }
  destruct Hf as (frac & Sf & Hfrac).
  pose proof (spans_trans _ _ _ _ _ Si Sf) as S0.
  assert (S : spans (mkCursor p (last_char pre None) (w ++ post))
                (mkCursor (p + l) (last_char w (last_char pre None)) post) w).
  { unfold spans; simpl. repeat split. lia. }
  pose proof (spans_unique _ _ _ _ S0 S) as Ew. subst w. clear S0 S.
  unfold is_digits in Di. apply andb_true_iff in Di as [Ne Da].
  exists pre, ds, frac, post. repeat split; try assumption.
  - unfold is_digits. now rewrite Ne, Da.
  - destruct ds as [|a ds]; [discriminate|].
    simpl in Da. apply andb_true_iff in Da as [Wa _].
    apply is_digit_word in Wa.
    exact (boundary_before _ _ _ _ Wa B1).
  - assert (L : exists b,
               last_char (ds ++ frac) (last_char pre None) = Some b
               /\ is_word b = true).
    { rewrite last_char_app.
      destruct Hfrac as [-> | (ds' & -> & Dg)].
      - simpl. assert (Hne : ds <> "") by (intros ->; discriminate).
        destruct (last_char_all is_digit ds (last_char pre None) Da Hne)
          as (b & Eb & Db).
        exists b. split; [exact Eb | now apply is_digit_word].
      - unfold is_digits in Dg. apply andb_true_iff in Dg as [Ne' Da'].
        assert (Hne : ds' <> "") by (intros ->; discriminate).
        simpl.
        destruct (last_char_all is_digit ds' (Some "."%char) Da' Hne)
          as (b & Eb & Db).
        exists b. split; [exact Eb | now apply is_digit_word]. }
    destruct L as (b & Eb & Wb).
    rewrite Eb in B2. exact (boundary_after _ _ _ Wb B2).
Qed.

(** X2: a match of the number pattern is a non-empty run of digits,
    possibly followed by a dot and another non-empty run of digits, and
    stands as a whole word: no word character comes right before it or
    right after it. *)
Theorem number_shape (s : string) (p l : nat) :
  regex_search s number = Some (p, l) ->
  exists pre ds frac post,
    s = (pre ++ (ds ++ frac) ++ post)%string
    /\ String.length pre = p /\ String.length (ds ++ frac) = l
    /\ is_digits ds = true
    /\ (frac = ""
        \/ exists ds', frac = ("." ++ ds')%string /\ is_digits ds' = true)
    /\ is_word_opt (last_char pre None) = false
    /\ is_word_opt (first_char post) = false.
Proof.
  exact (number_match s p l).
Qed.

Lemma number_shape_witness :
  exists pre ds frac post,
    "v2 3.14." = (pre ++ (ds ++ frac) ++ post)%string
    /\ String.length pre = 3 /\ String.length (ds ++ frac) = 4
    /\ is_digits ds = true
    /\ (frac = ""
        \/ exists ds', frac = ("." ++ ds')%string /\ is_digits ds' = true)
    /\ is_word_opt (last_char pre None) = false
    /\ is_word_opt (first_char post) = false.
Proof.
  apply (number_shape "v2 3.14." 3 4). vm_compute. reflexivity.
Defined.

Lemma comment_match (s : string) (p l : nat) :
  (regex_search s cpp_comment = Some (p, l) ->
   exists pre body,
     s = (pre ++ "//" ++ body)%string
     /\ String.length pre = p /\ l = 2 + String.length body
     /\ p + l = String.length s
     /\ all_chars is_any body = true)
  /\ (regex_search s py_comment = Some (p, l) ->
      exists pre body,
        s = (pre ++ "#" ++ body)%string
        /\ String.length pre = p /\ l = 1 + String.length body
        /\ p + l = String.length s
        /\ all_chars is_any body = true).
Proof.
  split; intros H;
    apply regex_search_matches in H as (pre & w & post & -> & Lp & Lw & M).
  - change cpp_comment
      with (Cat (Chr "/") (Cat (Chr "/") (Cat (Star AnyChar) EndOfInput)))
      in M.
    apply inv_cat in M as (c1 & M1 & M).
    apply inv_cat in M as (c2 & M2 & M).
    apply inv_cat in M as (c3 & M3 & M4).
    apply inv_end in M4 as [E3 R]. symmetry in E3. subst c3.
    simpl in R. subst post.
    apply inv_chr in M1. apply inv_chr in M2.
    apply (star_chars is_any) in M3 as (body & S3 & Ab);
      [|intros; now apply inv_any].
    pose proof (spans_trans _ _ _ _ _ M1 (spans_trans _ _ _ _ _ M2 S3)) as S0.
    assert (S : spans (mkCursor p (last_char pre None) (w ++ ""))
                  (mkCursor (p + l) (last_char w (last_char pre None)) "") w).
    { unfold spans; simpl. repeat split. lia. }
    pose proof (spans_unique _ _ _ _ S0 S) as Ew. subst w.
    exists pre, body. rewrite append_nil_r.
    repeat split; try assumption.
    + simpl in Lw. simpl. lia.
    + rewrite !length_append. simpl in *. lia.
  - change py_comment
      with (Cat (Chr "#") (Cat (Star AnyChar) EndOfInput)) in M.
    apply inv_cat in M as (c1 & M1 & M).
    apply inv_cat in M as (c3 & M3 & M4).
    apply inv_end in M4 as [E3 R]. symmetry in E3. subst c3.
    simpl in R. subst post.
    apply inv_chr in M1.
    apply (star_chars is_any) in M3 as (body & S3 & Ab);
      [|intros; now apply inv_any].
    pose proof (spans_trans _ _ _ _ _ M1 S3) as S0.
    assert (S : spans (mkCursor p (last_char pre None) (w ++ ""))
                  (mkCursor (p + l) (last_char w (last_char pre None)) "") w).
    { unfold spans; simpl. repeat split. lia. }
    pose proof (spans_unique _ _ _ _ S0 S) as Ew. subst w.
    exists pre, body. rewrite append_nil_r.
    repeat split; try assumption.
    + simpl in Lw. simpl. lia.
    + rewrite !length_append. simpl in *. lia.
Qed.

(** X3: a match of a comment pattern starts with the comment marker
    ([//] for the C family, [#] for Python) and runs to the end of the
    text it was searched in; the text after the marker holds no line
    feed and no carriage return. *)
Theorem comment_runs_to_end (s : string) (p l : nat) :
  (regex_search s cpp_comment = Some (p, l) ->
   exists pre body,
     s = (pre ++ "//" ++ body)%string
     /\ String.length pre = p /\ l = 2 + String.length body
     /\ p + l = String.length s
     /\ all_chars is_any body = true)
  /\ (regex_search s py_comment = Some (p, l) ->
      exists pre body,
        s = (pre ++ "#" ++ body)%string
        /\ String.length pre = p /\ l = 1 + String.length body
        /\ p + l = String.length s
        /\ all_chars is_any body = true).
Proof.
  exact (comment_match s p l).
Qed.

Lemma comment_runs_to_end_witness :
  exists pre body,
    c_line = (pre ++ "//" ++ body)%string
    /\ String.length pre = 12 /\ 10 = 2 + String.length body
    /\ 12 + 10 = String.length c_line
    /\ all_chars is_any body = true.
Proof.
  apply (proj1 (comment_runs_to_end c_line 12 10)).
  vm_compute. reflexivity.
Defined.

Lemma matches_unquoted (q : ascii) (c c' : cursor) :
  matches (unquoted q) c c' ->
  exists items,
    spans c c' (concat_all items) /\ Forall (literal_item q) items.
Proof.
  intros M. apply inv_none_of in M as (a & Ha & S).
  cbn [contains] in Ha. apply orb_false_iff in Ha as [Hq Hb].
  apply orb_false_iff in Hb as [Hb _].
  exists [String a ""]. split; [exact S|].
  constructor; [|constructor]. left. exists a.
  rewrite Ascii.eqb_sym in Hq. rewrite Ascii.eqb_sym in Hb. auto.
Qed.

Lemma matches_escaped (q : ascii) (c c' : cursor) :
  matches escaped c c' ->
  exists items,
    spans c c' (concat_all items) /\ Forall (literal_item q) items.
Proof.
  intros M. apply inv_cat in M as (c1 & M1 & M2).
  apply inv_chr in M1. apply inv_any in M2 as (a & Ha & S2).
  exists [String backslash_char (String a "")]. split.
  - exact (spans_trans _ _ _ _ _ M1 S2).
  - constructor; [|constructor]. right. eauto.
Qed.

Lemma quoted_match (q : ascii) (s : string) (p l : nat) :
  regex_search s (cpp_quoted q) = Some (p, l)
  \/ regex_search s (py_quoted q) = Some (p, l) ->
  exists pre items post,
    s = (pre ++ (String q (concat_all items ++ String q "")) ++ post)%string
    /\ String.length pre = p
    /\ l = 2 + String.length (concat_all items)
    /\ Forall (literal_item q) items.
Proof.
  intros H.
  assert (Hm : exists pre w post items,
             s = (pre ++ w ++ post)%string
             /\ String.length pre = p /\ String.length w = l
             /\ spans (mkCursor p (last_char pre None) (w ++ post))
                  (mkCursor (p + l) (last_char w (last_char pre None)) post)
                  (String q (concat_all items ++ String q ""))
             /\ Forall (literal_item q) items).
  { destruct H as [H|H];
      apply regex_search_matches in H as (pre & w & post & -> & Lp & Lw & M);
      exists pre, w, post.
    - change (cpp_quoted q)
        with (Cat (Chr q)
                (Cat (Star (unquoted q))
                   (Cat (Star (Cat escaped (Star (unquoted q)))) (Chr q))))
        in M.
      apply inv_cat in M as (c1 & M1 & M).
      apply inv_cat in M as (c2 & M2 & M).
      apply inv_cat in M as (c3 & M3 & M4).
      apply inv_chr in M1. apply inv_chr in M4.
      apply (star_items (literal_item q)) in M2 as (i2 & S2 & F2);
        [|intros; now apply matches_unquoted].
      apply (star_items (literal_item q)) in M3 as (i3 & S3 & F3).
      + exists (i2 ++ i3).
        split; [reflexivity|]. split; [exact Lp|]. split; [exact Lw|]. split.
        * pose proof (spans_trans _ _ _ _ _ M1
                        (spans_trans _ _ _ _ _ S2
                           (spans_trans _ _ _ _ _ S3 M4))) as S0.
          rewrite concat_all_app, append_assoc. exact S0.
        * apply Forall_app. now split.
      + intros c0 c0' M0. apply inv_cat in M0 as (c4 & Me & Mu).
        apply (matches_escaped q) in Me as (ie & Se & Fe).
        apply (star_items (literal_item q)) in Mu as (iu & Su & Fu);
          [|intros; now apply matches_unquoted].
        exists (ie ++ iu). split.
        * rewrite concat_all_app. exact (spans_trans _ _ _ _ _ Se Su).
        * apply Forall_app. now split.
    - change (py_quoted q)
        with (Cat (Chr q) (Cat (Star (Alt (unquoted q) escaped)) (Chr q)))
        in M.
      apply inv_cat in M as (c1 & M1 & M).
      apply inv_cat in M as (c2 & M2 & M4).
      apply inv_chr in M1. apply inv_chr in M4.
      apply (star_items (literal_item q)) in M2 as (i2 & S2 & F2).
      + exists i2.
        split; [reflexivity|]. split; [exact Lp|]. split; [exact Lw|].
        split; [|exact F2].
        exact (spans_trans _ _ _ _ _ M1 (spans_trans _ _ _ _ _ S2 M4)).
      + intros c0 c0' M0. apply inv_alt in M0 as [M0|M0].
        * now apply matches_unquoted.
        * now apply matches_escaped. }
  destruct Hm as (pre & w & post & items & -> & Lp & Lw & S0 & F).
  assert (S : spans (mkCursor p (last_char pre None) (w ++ post))
                (mkCursor (p + l) (last_char w (last_char pre None)) post) w).
  { unfold spans; simpl. repeat split. lia. }
  pose proof (spans_unique _ _ _ _ S0 S) as Ew. subst w.
  exists pre, items, post. repeat split; try assumption.
  simpl in Lw. rewrite length_append in Lw. simpl in Lw. lia.
Qed.

(** X4: a match of a quoted-literal pattern, of the C family or of
    Python, is the quote, a sequence of items and the quote again,
    where an item is a character other than the quote and the backslash
    or a backslash with the character after it: the literal ends at the
    first quote that is not escaped. *)
Theorem quoted_literal_shape (q : ascii) (s : string) (p l : nat) :
  regex_search s (cpp_quoted q) = Some (p, l)
  \/ regex_search s (py_quoted q) = Some (p, l) ->
  exists pre items post,
    s = (pre ++ (String q (concat_all items ++ String q "")) ++ post)%string
    /\ String.length pre = p
    /\ l = 2 + String.length (concat_all items)
    /\ Forall (literal_item q) items.
Proof.
  exact (quoted_match q s p l).
Qed.

Lemma quoted_literal_shape_witness :
  exists pre items post,
    "a 'b\'c' d"
    = (pre ++ (String quote_char (concat_all items ++ String quote_char ""))
         ++ post)%string
    /\ String.length pre = 2
    /\ 6 = 2 + String.length (concat_all items)
    /\ Forall (literal_item quote_char) items.
Proof.
  apply (quoted_literal_shape quote_char "a 'b\'c' d" 2 6).
  left. vm_compute. reflexivity.
Defined.

(* ================================================================== *)
(** ** More about the search for the earliest match *)
(* ================================================================== *)

Lemma consider_none (remaining : string) (e : earliest)
  (rule : HighlightRule) :
  consider remaining e rule = None <->
  e = None /\ regex_search remaining (pattern rule) = None.
Proof.
  unfold consider.
  destruct (regex_search remaining (pattern rule)) as [[q m]|].
  - destruct e as [[[p l] code]|]; simpl.
    + destruct (q <? p)%nat; split; intros H;
        try discriminate; destruct H; discriminate.
    + split; intros H; [discriminate | destruct H; discriminate].
  - split; [auto | now intros [-> _]].
Qed.

Lemma fold_consider_none (remaining : string) (rules : list HighlightRule) :
  forall e,
    fold_left (consider remaining) rules e = None <->
    e = None
    /\ forall rule, In rule rules ->
         regex_search remaining (pattern rule) = None.
Proof.
  induction rules as [|r rules IH]; intros e; simpl.
  - split; [intros ->; split; [reflexivity | contradiction] | now intros [-> _]].
  - rewrite IH, consider_none. split.
    + intros [[-> Hr] Hall]. split; [reflexivity|].
      intros rule [<-|Hin]; auto.
    + intros [-> Hall]. repeat split; auto.
Qed.

Lemma nth_error_snoc {A} (xs : list A) (x : A) (j : nat) (y : A) :
  nth_error (xs ++ [x]) j = Some y ->
  (j < length xs /\ nth_error xs j = Some y)
  \/ (j = length xs /\ y = x).
Proof.
  intros H. destruct (Nat.lt_ge_cases j (length xs)) as [L|L].
  - left. split; [exact L|]. now rewrite nth_error_app1 in H.
  - right. rewrite nth_error_app2 in H by exact L.
    destruct (j - length xs) as [|d] eqn:D.
    + simpl in H. injection H as <-. split; [lia | reflexivity].
    + simpl in H. destruct d; discriminate.
Qed.

Lemma kept_after_step (remaining : string) (done : list HighlightRule)
  (e : earliest) (r : HighlightRule) :
  kept_after remaining done e ->
  kept_after remaining (done ++ [r]) (consider remaining e r).
Proof.
  intros K. unfold consider.
  destruct (regex_search remaining (pattern r)) as [[q0 m0]|] eqn:E.
  - destruct (before q0 e) eqn:Bf.
    + (* the new match is kept *)
      exists (length done), r. split.
      { rewrite nth_error_app2 by lia. now rewrite Nat.sub_diag. }
      split; [exact E|]. split; [reflexivity|].
      intros j B q m HB Hs.
      apply nth_error_snoc in HB as [[Lj HB] | [-> ->]].
      * destruct e as [[[p l] code]|]; simpl in *.
        -- destruct K as (k & A & _ & _ & _ & Hmin).
           apply Nat.ltb_lt in Bf.
           destruct (Hmin j B q m HB Hs). lia.
        -- apply nth_error_In in HB. rewrite (K B HB) in Hs. discriminate.
      * rewrite E in Hs. injection Hs as <- <-. lia.
    + (* the candidate stays *)
      destruct e as [[[p l] code]|]; [|discriminate].
      simpl in Bf. apply Nat.ltb_ge in Bf.
      destruct K as (k & A & Hk & HA & Hc & Hmin).
      assert (Lk : k < length done) by (apply nth_error_Some; congruence).
      exists k, A. split; [now rewrite nth_error_app1|].
      split; [exact HA|]. split; [exact Hc|].
      intros j B q m HB Hs.
      apply nth_error_snoc in HB as [[Lj HB] | [-> ->]].
      * exact (Hmin j B q m HB Hs).
      * rewrite E in Hs. injection Hs as <- <-. lia.
  - destruct e as [[[p l] code]|]; simpl in *.
    + destruct K as (k & A & Hk & HA & Hc & Hmin).
      assert (Lk : k < length done) by (apply nth_error_Some; congruence).
      exists k, A. split; [now rewrite nth_error_app1|].
      split; [exact HA|]. split; [exact Hc|].
      intros j B q m HB Hs.
      apply nth_error_snoc in HB as [[Lj HB] | [-> ->]].
      * exact (Hmin j B q m HB Hs).
      * rewrite E in Hs. discriminate.
    + intros B HB. apply in_app_or in HB as [HB | [<- | []]]; auto.
Qed.

Lemma kept_after_fold (remaining : string) (rules : list HighlightRule) :
  forall done e,
    kept_after remaining done e ->
    kept_after remaining (done ++ rules)
      (fold_left (consider remaining) rules e).
Proof.
  induction rules as [|r rules IH]; intros done e K; simpl.
  - now rewrite app_nil_r.
  - replace (done ++ r :: rules) with ((done ++ [r]) ++ rules)
      by (rewrite <- app_assoc; reflexivity).
    apply IH. now apply kept_after_step.
Qed.

(** X5: what the scan over the rules keeps.  It keeps nothing exactly
    when no rule matches in [remaining]; and what it keeps is the match
    of a rule that starts at the lowest index of all, this rule being
    the first in the sequence among those whose match starts there. *)
Theorem find_earliest_characterised (remaining : string)
  (rules : list HighlightRule) :
  (find_earliest remaining rules = None <->
   forall rule, In rule rules ->
     regex_search remaining (pattern rule) = None)
  /\ forall p l code,
       find_earliest remaining rules = Some (p, l, code) ->
       exists k A,
         nth_error rules k = Some A
         /\ regex_search remaining (pattern A) = Some (p, l)
         /\ code = color_code A
         /\ forall j B q m,
              nth_error rules j = Some B ->
              regex_search remaining (pattern B) = Some (q, m) ->
              p <= q /\ (q = p -> k <= j).
Proof.
  split.
  - unfold find_earliest. rewrite fold_consider_none. tauto.
  - intros p l code H.
    pose proof (kept_after_fold remaining rules [] None) as K.
    simpl in K. unfold find_earliest in H. rewrite H in K.
    apply K. intros B [].
Qed.

Lemma find_earliest_characterised_witness :
  exists k A,
    nth_error cpp_rules k = Some A
    /\ regex_search c_line (pattern A) = Some (0, 3)
    /\ blue = color_code A
    /\ forall j B q m,
         nth_error cpp_rules j = Some B ->
         regex_search c_line (pattern B) = Some (q, m) ->
         0 <= q /\ (q = 0 -> k <= j).
Proof.
  apply (proj2 (find_earliest_characterised c_line cpp_rules) 0 3 blue).
  vm_compute. reflexivity.
Defined.

(* ================================================================== *)
(** ** More about the output of a line *)
(* ================================================================== *)

Lemma length_zero_empty (s : string) : String.length s = 0 -> s = "".
Proof. destruct s; [reflexivity | discriminate]. Qed.

Lemma chunk_from_suffix (rules : list HighlightRule) (pre0 s : string)
  (ch : chunk) :
  chunk_from rules s ch -> chunk_from rules (pre0 ++ s) ch.
Proof.
  destruct ch as [t | code t]; simpl.
  - intros (Hne & pre & post & ->). split; [exact Hne|].
    exists (pre0 ++ pre)%string, post. now rewrite append_assoc.
  - intros (rule & pre & remaining & p & l & Hin & Hc & -> & Hs & Ht).
    exists rule, (pre0 ++ pre)%string, remaining, p, l.
    repeat split; try assumption. now rewrite append_assoc.
Qed.

Lemma iteration_chunks (rules : list HighlightRule) (remaining : string)
  (out : list chunk) (next : option string) :
  remaining <> "" ->
  iteration remaining rules = (out, next) ->
  Forall (chunk_from rules remaining) out
  /\ match next with
     | None => True
     | Some s => exists pre0, remaining = (pre0 ++ s)%string
     end.
Proof.
  intros Hne. unfold iteration.
  destruct (find_earliest remaining rules) as [[[p l] code]|] eqn:F.
  - intros H. injection H as <- <-.
    pose proof (find_earliest_bounds _ _ _ _ _ F) as Hb.
    pose proof (substring_split p l remaining Hb) as Sp.
    apply find_earliest_sound in F as (rule & Hin & Hs & Hc).
    split.
    + apply Forall_app. split.
      * destruct (Nat.ltb_spec 0 p) as [Hp|Hp]; constructor; [|constructor].
        simpl. split.
        -- intros E. apply (f_equal String.length) in E.
           unfold substr in E. rewrite length_substring in E by lia.
           simpl in E. lia.
        -- exists "", (substring p l remaining
                         ++ substr_from (p + l) remaining)%string.
           simpl. unfold substr. now rewrite Sp.
      * constructor; [|constructor]. simpl.
        exists rule, "", remaining, p, l. auto.
    + exists (substring 0 p remaining ++ substring p l remaining)%string.
      now rewrite append_assoc, Sp.
  - intros H. injection H as <- <-. split; [|exact I].
    constructor; [|constructor]. simpl. split; [exact Hne|].
    exists "", "". simpl. now rewrite append_nil_r.
Qed.

Lemma scan_chunks (rules : list HighlightRule) (fuel : nat) :
  forall remaining out,
    scan fuel remaining rules = Some out ->
    Forall (chunk_from rules remaining) out.
Proof.
  induction fuel as [|fuel IH]; intros remaining out H; simpl in H.
  - destruct (empty remaining); [|discriminate].
    injection H as <-. constructor.
  - destruct (empty remaining) eqn:E; [injection H as <-; constructor|].
    assert (Hne : remaining <> "") by (intros ->; discriminate).
    destruct (iteration remaining rules) as [o [next|]] eqn:It;
      apply (iteration_chunks rules remaining _ _ Hne) in It as [Fo Hn].
    + destruct (scan fuel next rules) as [outs|] eqn:Sc; [|discriminate].
      injection H as <-. apply Forall_app. split; [exact Fo|].
      destruct Hn as [pre0 ->]. apply IH in Sc.
      eapply Forall_impl; [|exact Sc].
      intros ch. apply chunk_from_suffix.
    + injection H as <-. exact Fo.
Qed.

(** X6: every chunk that [highlightAndPrintLine] prints before the line
    terminator comes from the line: a plain chunk is a non-empty piece
    of it, and a coloured chunk is the match that [regex_search] finds
    for one of the given rules on a suffix of the line, printed in the
    colour of that rule.  No empty plain chunk and no colour from
    elsewhere is ever printed. *)
Theorem chunks_come_from_line_and_rules (fuel : nat) (line : string)
  (rules : list HighlightRule) (out : list chunk) :
  highlightAndPrintLine fuel line rules = Some out ->
  exists body,
    out = body ++ [Plain nl]
    /\ Forall (chunk_from rules line) body.
Proof.
  unfold highlightAndPrintLine.
  destruct (scan fuel line rules) as [o|] eqn:E; [|discriminate].
  intros H. injection H as <-. exists o. split; [reflexivity|].
  now apply (scan_chunks rules fuel).
Qed.

Lemma chunks_come_from_line_and_rules_witness :
  exists body,
    [Plain "s = "; Colored orange py_string; Plain nl] = body ++ [Plain nl]
    /\ Forall (chunk_from py_rules py_line) body.
Proof.
  apply (chunks_come_from_line_and_rules 1 py_line py_rules).
  vm_compute. reflexivity.
Defined.

Lemma substr_match (pre w post : string) (p l : nat) :
  String.length pre = p -> String.length w = l ->
  substr p l (pre ++ w ++ post) = w.
Proof. intros <- <-. apply substring_of_parts. Qed.

Lemma length_quoted (q : ascii) (mid : string) :
  String.length (String q (mid ++ String q "")) = 2 + String.length mid.
Proof. simpl. rewrite length_append. simpl. lia. Qed.

(** The five rules of a language, by its keywords, its literal pattern
    and its comment pattern. *)
Lemma language_chunk_meaning (ws : list string) (quoted : ascii -> regex)
  (comment : regex) (marker : string) (line : string) (ch : chunk) :
  ws <> [] ->
  forallb is_identifier ws = true ->
  (forall q s p l,
     regex_search s (quoted q) = Some (p, l) ->
     regex_search s (cpp_quoted q) = Some (p, l)
     \/ regex_search s (py_quoted q) = Some (p, l)) ->
  (forall s p l,
     regex_search s comment = Some (p, l) ->
     exists pre body,
       s = (pre ++ marker ++ body)%string
       /\ String.length pre = p
       /\ l = String.length marker + String.length body
       /\ all_chars is_any body = true) ->
  chunk_from
    [ mkRule (keyword_pattern ws) blue;
      mkRule (quoted dquote_char) orange;
      mkRule (quoted quote_char) orange;
      mkRule comment gray;
      mkRule number magenta ] line ch ->
  chunk_meaning ws marker ch.
Proof.
  intros Hne Hid Hq Hc.
  destruct ch as [t | code t]; simpl; [trivial|].
  intros (rule & pre0 & remaining & p & l & Hin & -> & _ & Hs & ->).
  destruct Hin as [<-|[<-|[<-|[<-|[<-|[]]]]]]; cbn [pattern color_code] in *.
  - left. split; [reflexivity|].
    apply (keyword_match ws _ _ _ Hne Hid) in Hs
      as (pre & w & post & -> & Lp & Lw & Hin & _).
    now rewrite (substr_match pre w post p l Lp Lw).
  - right; left. split; [reflexivity|].
    apply Hq, quoted_match in Hs as (pre & items & post & -> & Lp & Ll & F).
    exists dquote_char, items. split; [now left|]. split; [|exact F].
    apply substr_match; [exact Lp|]. rewrite length_quoted. lia.
  - right; left. split; [reflexivity|].
    apply Hq, quoted_match in Hs as (pre & items & post & -> & Lp & Ll & F).
    exists quote_char, items. split; [now right|]. split; [|exact F].
    apply substr_match; [exact Lp|]. rewrite length_quoted. lia.
  - right; right; left. split; [reflexivity|].
    apply Hc in Hs as (pre & body & -> & Lp & Ll & Ab).
    exists body. split; [|exact Ab].
    rewrite <- (append_nil_r (marker ++ body)) at 1.
    rewrite append_assoc.
    replace (pre ++ marker ++ body ++ "")%string
      with (pre ++ (marker ++ body) ++ "")%string
      by (now rewrite append_assoc).
    apply substr_match; [exact Lp|]. rewrite length_append. lia.
  - right; right; right. split; [reflexivity|].
    apply number_match in Hs
      as (pre & ds & frac & post & -> & Lp & Ll & Dd & Hf & _).
    exists ds, frac. split; [|auto].
    now apply substr_match.
Qed.

(** X7: what the colours mean.  In the output of a line under the rules
    of a C-family extension, every chunk in the keyword colour is one
    of the C++ keywords, every chunk in the string colour is a quoted
    literal with double or single quotes, every chunk in the comment
    colour starts with [//], and every chunk in the number colour is a
    run of digits with at most one fraction part; likewise for Python,
    with its keywords and with [#]. *)
Theorem colours_mean_categories (fuel : nat) (line : string)
  (out : list chunk) :
  (forall ext,
     In ext c_family ->
     highlightAndPrintLine fuel line (getHighlightRules ext) = Some out ->
     Forall (chunk_meaning cpp_keywords "//") out)
  /\ (highlightAndPrintLine fuel line (getHighlightRules "py") = Some out ->
      Forall (chunk_meaning py_keywords "#") out).
Proof.
  split.
  - intros ext Hext H. rewrite (getHighlightRules_c_family ext Hext) in H.
    unfold highlightAndPrintLine in H.
    destruct (scan fuel line cpp_rules) as [o|] eqn:E; [|discriminate].
    injection H as <-. apply Forall_app. split.
    + apply scan_chunks in E. eapply Forall_impl; [|exact E].
      intros ch.
      apply (language_chunk_meaning cpp_keywords cpp_quoted cpp_comment "//").
      * discriminate.
      * vm_compute. reflexivity.
      * intros; now left.
      * intros s p l Hs. apply comment_match in Hs
          as (pre & body & -> & Lp & Ll & _ & Ab).
        exists pre, body. auto.
    + repeat constructor.
  - intros H. change (getHighlightRules "py") with py_rules in H.
    unfold highlightAndPrintLine in H.
    destruct (scan fuel line py_rules) as [o|] eqn:E; [|discriminate].
    injection H as <-. apply Forall_app. split.
    + apply scan_chunks in E. eapply Forall_impl; [|exact E].
      intros ch.
      apply (language_chunk_meaning py_keywords py_quoted py_comment "#").
      * discriminate.
      * vm_compute. reflexivity.
      * intros; now right.
      * intros s p l Hs. apply comment_match in Hs
          as (pre & body & -> & Lp & Ll & _ & Ab).
        exists pre, body. auto.
    + repeat constructor.
Qed.

Lemma colours_mean_categories_witness :
  Forall (chunk_meaning cpp_keywords "//")
    [ Colored blue "int"; Plain " x = "; Colored magenta "42";
      Plain "; "; Colored gray "// comment"; Plain nl ].
Proof.
  apply (proj1 (colours_mean_categories 3 c_line _) "h").
  - simpl. tauto.
  - vm_compute. reflexivity.
Defined.

Lemma scan_empty (fuel : nat) (rules : list HighlightRule) :
  scan fuel "" rules = Some [].
Proof. destruct fuel; reflexivity. Qed.

(** A colour whose rules only match up to the end of the text ends the
    scan. *)
Lemma scan_closing_colour (rules : list HighlightRule) (code : string) :
  (forall rule s p l,
     In rule rules -> color_code rule = code ->
     regex_search s (pattern rule) = Some (p, l) ->
     p + l = String.length s) ->
  forall fuel remaining out pre t post,
    scan fuel remaining rules = Some out ->
    out = pre ++ Colored code t :: post ->
    post = [].
Proof.
  intros Hend fuel.
  induction fuel as [|fuel IH]; intros remaining out pre t post H E;
    simpl in H.
  - destruct (empty remaining); [|discriminate].
    injection H as <-. now destruct pre.
  - destruct (empty remaining); [injection H as <-; now destruct pre|].
    unfold iteration in H.
    destruct (find_earliest remaining rules) as [[[p l] c]|] eqn:F.
    + destruct (scan fuel _ rules) as [outs|] eqn:Sc; [|discriminate].
      injection H as <-.
      assert (Hcase : forall pre',
                 Colored c (substr p l remaining) :: outs
                 = pre' ++ Colored code t :: post -> post = []).
      { intros [|x pre'] E'; simpl in E'.
        - injection E' as -> _ <-.
          apply find_earliest_sound in F as (rule & Hin & Hs & Hc).
          symmetry in Hc.
          pose proof (Hend rule remaining p l Hin Hc Hs) as Hl.
          assert (N : substr_from (p + l) remaining = "").
          { apply length_zero_empty. rewrite length_substr_from. lia. }
          rewrite N, scan_empty in Sc. now injection Sc as <-.
        - injection E' as _ E'. exact (IH _ _ _ _ _ Sc E'). }
      rewrite <- app_assoc in E. simpl in E.
      destruct (0 <? p)%nat.
      * destruct pre as [|x pre]; simpl in E; [discriminate|].
        injection E as _ E. exact (Hcase pre E).
      * exact (Hcase pre E).
    + injection H as <-.
      destruct pre as [|x [|y pre]]; discriminate.
Qed.

Lemma cons_app_single {A} (xs : list A) (x y : A) (pre post : list A) :
  xs ++ [x] = pre ++ y :: post ->
  (post = [] /\ xs = pre /\ x = y)
  \/ exists post', post = post' ++ [x] /\ xs = pre ++ y :: post'.
Proof.
  revert pre. induction xs as [|a xs IH]; intros pre E.
  - destruct pre as [|b pre]; simpl in E.
    + injection E as <- <-. now left.
    + injection E as _ E. destruct pre; discriminate.
  - destruct pre as [|b pre]; simpl in E.
    + injection E as <- <-. right. exists xs. auto.
    + injection E as <- E. apply IH in E as [(-> & -> & ->) | (post' & -> & ->)].
      * now left.
      * right. exists post'. auto.
Qed.

(** X8: a comment is the last thing on its line.  Under the rules of
    any extension, once [highlightAndPrintLine] has printed a chunk in
    the comment colour, the only thing it still prints is the line
    terminator. *)
Theorem comment_chunk_is_last (ext : string) (fuel : nat) (line : string)
  (out pre post : list chunk) (t : string) :
  highlightAndPrintLine fuel line (getHighlightRules ext) = Some out ->
  out = pre ++ Colored gray t :: post ->
  post = [Plain nl].
Proof.
  unfold highlightAndPrintLine.
  destruct (scan fuel line (getHighlightRules ext)) as [o|] eqn:E;
    [|discriminate].
  intros H Eo. injection H as <-.
  apply cons_app_single in Eo as [(_ & _ & Habs) | (post' & -> & Eo)];
    [discriminate|].
  assert (Hend : forall rule s p l,
             In rule (getHighlightRules ext) -> color_code rule = gray ->
             regex_search s (pattern rule) = Some (p, l) ->
             p + l = String.length s).
  { intros rule s p l Hin Hc Hs.
    destruct (getHighlightRules_cases ext) as [R | [R | R]];
      rewrite R in Hin; simpl in Hin.
    - destruct Hin as [<-|[<-|[<-|[<-|[<-|[]]]]]];
        try (vm_compute in Hc; discriminate).
      cbn [pattern] in Hs. apply comment_match in Hs
        as (? & ? & _ & _ & _ & Hl & _). exact Hl.
    - destruct Hin as [<-|[<-|[<-|[<-|[<-|[]]]]]];
        try (vm_compute in Hc; discriminate).
      cbn [pattern] in Hs. apply comment_match in Hs
        as (? & ? & _ & _ & _ & Hl & _). exact Hl.
    - contradiction. }
  rewrite (scan_closing_colour _ gray Hend fuel line o pre t post' E Eo).
  reflexivity.
Qed.

Lemma comment_chunk_is_last_witness :
  highlightAndPrintLine 3 c_line (getHighlightRules "cpp")
  = Some ([ Colored blue "int"; Plain " x = "; Colored magenta "42";
            Plain "; " ] ++ Colored gray "// comment" :: [Plain nl])
  /\ [Plain nl] = [Plain nl].
Proof.
  assert (H : highlightAndPrintLine 3 c_line (getHighlightRules "cpp")
              = Some ([ Colored blue "int"; Plain " x = ";
                        Colored magenta "42"; Plain "; " ]
                      ++ Colored gray "// comment" :: [Plain nl]))
    by (vm_compute; reflexivity).
  split; [exact H|].
  exact (comment_chunk_is_last "cpp" 3 c_line _ _ [Plain nl] "// comment"
           H eq_refl).
Defined.






(* ================================================================== *)
(** ** The whole program *)
(* ================================================================== *)



Lemma print_lines_content (rules : list HighlightRule) (fuel : nat)
  (lines : list string) :
  forall out,
    print_lines fuel lines rules = Some out ->
    strip_markers out
    = concat_all (map (fun line => (line ++ nl)%string) lines).
Proof.
  induction lines as [|line lines IH]; intros out H; simpl in H.
  - now injection H as <-.
  - unfold highlightAndPrintLine in H.
    destruct (scan fuel line rules) as [o|] eqn:E; [|discriminate].
    destruct (print_lines fuel lines rules) as [os|]; [|discriminate].
    injection H as <-. apply scan_content in E.
    rewrite !strip_markers_app, E, (IH os eq_refl). reflexivity.
Qed.


(** X11: the streams and the exit code agree.  Whenever [main] returns,
    the exit code is 0 or 1; it is 0 exactly when an argument is given
    and the file it names opens; on exit code 0 the error stream is
    empty; on exit code 1 nothing was printed and the error stream holds
    the usage message or the message that names the file. *)
Theorem main_outcomes (fuel : nat) (open : string -> option (list string))
  (prog : string) (args : list string) (o : outcome) :
  main fuel open prog args = Some o ->
  (exit_code o = 0%Z \/ exit_code o = 1%Z)
  /\ (exit_code o = 0%Z <->
      exists filename more lines,
        args = filename :: more /\ open filename = Some lines)
  /\ (exit_code o = 0%Z -> err_stream o = "")
  /\ (exit_code o = 1%Z ->
      out_stream o = []
      /\ (err_stream o = ("Usage: " ++ prog ++ " filename" ++ nl)%string
          \/ exists filename more,
               args = filename :: more
               /\ err_stream o
                  = ("Error: Cannot open file " ++ filename ++ nl)%string)).
Proof.
  unfold main. destruct args as [|filename more].
  - intros H. injection H as <-. simpl.
    split; [now right|]. split; [|split].
    + split; [discriminate | intros (f & m & ls & E & _); discriminate].
    + discriminate.
    + auto.
  - destruct (open filename) as [lines|] eqn:Ho.
    + destruct (print_lines fuel lines _) as [out|]; [|discriminate].
      intros H. injection H as <-. simpl.
      split; [now left|]. split; [|split].
      * split; [intros _; now exists filename, more, lines | reflexivity].
      * reflexivity.
      * discriminate.
    + intros H. injection H as <-. simpl.
      split; [now right|]. split; [|split].
      * split; [discriminate|].
        intros (f & m & ls & E & Ho'). injection E as <- <-.
        rewrite Ho in Ho'. discriminate.
      * discriminate.
      * intros _. split; [reflexivity|]. right. now exists filename, more.
Qed.

Lemma main_outcomes_witness :
  out_stream (mkOutcome [] ("Error: Cannot open file b.py" ++ nl) 1) = []
  /\ (err_stream (mkOutcome [] ("Error: Cannot open file b.py" ++ nl) 1)
      = ("Usage: " ++ "code2ascii" ++ " filename" ++ nl)%string
      \/ exists filename more,
           ["b.py"] = filename :: more
           /\ err_stream (mkOutcome [] ("Error: Cannot open file b.py" ++ nl) 1)
              = ("Error: Cannot open file " ++ filename ++ nl)%string).
Proof.
  apply (proj2 (proj2 (proj2
           (main_outcomes 0 (one_file "a.py" ["x"]) "code2ascii" ["b.py"]
              (mkOutcome [] ("Error: Cannot open file b.py" ++ nl) 1)
              eq_refl)))).
  reflexivity.
Defined.

(** X12: the program preserves the file.  When [main] returns after
    opening the file named by its first argument, what it printed, with
    the colour markers removed, is the lines of the file in order, each
    followed by one line terminator, whatever the extension. *)
Theorem main_preserves_content (fuel : nat)
  (open : string -> option (list string)) (prog filename : string)
  (more lines : list string) (o : outcome) :
  open filename = Some lines ->
  main fuel open prog (filename :: more) = Some o ->
  strip_markers (out_stream o)
  = concat_all (map (fun line => (line ++ nl)%string) lines).
Proof.
  intros Ho H. rewrite (main_opened _ _ _ _ _ _ Ho) in H.
  destruct (print_lines fuel lines _) as [out|] eqn:P; [|discriminate].
  injection H as <-. simpl. now apply print_lines_content in P.
Qed.

Lemma main_preserves_content_witness :
  strip_markers
    [ Colored blue "int"; Plain " x;"; Plain nl;
      Colored gray "// y"; Plain nl ]
  = concat_all (map (fun line => (line ++ nl)%string) ["int x;"; "// y"]).
Proof.
  apply (main_preserves_content 9 (one_file "a.c" ["int x;"; "// y"])
           "code2ascii" "a.c" [] ["int x;"; "// y"]
           (mkOutcome [ Colored blue "int"; Plain " x;"; Plain nl;
                        Colored gray "// y"; Plain nl ] "" 0)).
  - reflexivity.
  - vm_compute. reflexivity.
Defined.


(* ================================================================== *)
(** ** Colour codes *)
(* ================================================================== *)

Lemma uint_string_chars (c : ascii) (d : Decimal.uint) :
  is_digit c = false ->
  contains c (NilEmpty.string_of_uint d) = false.
Proof.
  intros H. induction d as [|d IH|d IH|d IH|d IH|d IH|d IH|d IH|d IH|d IH|d IH];
    cbn [NilEmpty.string_of_uint contains]; [reflexivity| | | | | | | | | |];
    rewrite IH, orb_false_r;
    match goal with |- Ascii.eqb ?k c = false =>
      destruct (Ascii.eqb_spec k c) as [<-|]; [discriminate H | reflexivity]
    end.
Qed.

Lemma to_string_chars (c : ascii) (z : Z) :
  is_digit c = false -> c <> "-"%char ->
  contains c (to_string z) = false.
Proof.
  intros H Hm. unfold to_string, NilEmpty.string_of_int.
  destruct (Z.to_int z) as [d|d]; cbn [contains].
  - now apply uint_string_chars.
  - rewrite (uint_string_chars c d H), orb_false_r.
    destruct (Ascii.eqb_spec "-" c) as [<-|]; [now contradiction Hm | reflexivity].
Qed.

Lemma to_string_inj (z z' : Z) : to_string z = to_string z' -> z = z'.
Proof.
  unfold to_string. intros H.
  apply (f_equal NilEmpty.int_of_string) in H.
  rewrite !NilEmpty.isi in H. injection H as H.
  now apply DecimalZ.to_int_inj.
Qed.

(** Two texts cut at the first occurrence of a separator. *)
Lemma split_at_separator (c : ascii) (a a' x x' : string) :
  contains c a = false -> contains c a' = false ->
  (a ++ String c x)%string = (a' ++ String c x')%string ->
  a = a' /\ x = x'.
Proof.
  revert a'. induction a as [|b a IH]; intros [|b' a'] Ha Ha' E;
    simpl in *.
  - injection E as ->. auto.
  - injection E as <- _. apply orb_false_iff in Ha' as [Hb _].
    now rewrite Ascii.eqb_refl in Hb.
  - injection E as -> _. apply orb_false_iff in Ha as [Hb _].
    now rewrite Ascii.eqb_refl in Hb.
  - injection E as <- E.
    apply orb_false_iff in Ha as [_ Ha].
    apply orb_false_iff in Ha' as [_ Ha'].
    destruct (IH a' Ha Ha' E) as [-> ->]. auto.
Qed.

(** X14: [rgb] tells colours apart: two colour codes are equal only if
    the three components are equal, and no colour code is [reset]. *)
Theorem rgb_injective (r g b r' g' b' : Z) :
  (rgb r g b = rgb r' g' b' -> r = r' /\ g = g' /\ b = b')
  /\ rgb r g b <> reset.
Proof.
  split.
  - unfold rgb, esc. simpl. intros H. injection H as H.
    apply split_at_separator in H as [Hr H];
      try (apply to_string_chars; [reflexivity | discriminate]).
    apply split_at_separator in H as [Hg H];
      try (apply to_string_chars; [reflexivity | discriminate]).
    apply split_at_separator in H as [Hb _];
      try (apply to_string_chars; [reflexivity | discriminate]).
    repeat split; now apply to_string_inj.
  - unfold rgb, reset, esc. simpl. discriminate.
Qed.

Lemma rgb_injective_witness :
  136%Z = 136%Z /\ 136%Z = 136%Z /\ 136%Z = 136%Z.
Proof.
  apply (proj1 (rgb_injective 136 136 136 136 136 136)). reflexivity.
Defined.

(* ================================================================== *)
(** ** More about the file extension *)
(* ================================================================== *)

(** X15: only the part of the name from its last dot on matters.  For a
    name that contains a dot, what precedes the name (a directory, a
    drive) does not change the extension; and the extension returned
    never contains a dot, so that its own extension is empty. *)
Theorem extension_ignores_prefix (dir base : string) :
  (contains "." base = true ->
   getFileExtension (dir ++ base) = getFileExtension base)
  /\ contains "." (getFileExtension base) = false
  /\ getFileExtension (getFileExtension base) = "".
Proof.
  assert (Hno : contains "." (getFileExtension base) = false).
  { destruct (getFileExtension_cases base) as [[_ ->] | (pre & _ & H)];
      [reflexivity | exact H]. }
  split; [|split; [exact Hno | now apply getFileExtension_no_dot]].
  intros Hdot.
  destruct (find_last_of "." base) as [i|] eqn:E.
  - apply find_last_of_some in E as (pre & suf & -> & _ & Hs).
    change (String "." suf) with ("." ++ suf)%string.
    rewrite (getFileExtension_last_dot pre suf Hs).
    rewrite <- append_assoc.
    apply (getFileExtension_last_dot (dir ++ pre) suf Hs).
  - apply find_last_of_none in E. congruence.
Qed.

Lemma extension_ignores_prefix_witness :
  getFileExtension ("src.d/" ++ "main.cpp") = getFileExtension "main.cpp".
Proof.
  apply (proj1 (extension_ignores_prefix "src.d/" "main.cpp")). reflexivity.
Defined.

(* ================================================================== *)
(** ** Lines without a match *)
(* ================================================================== *)

(** X16: a line in which no rule matches goes through untouched: it is
    printed as one plain chunk and the line terminator, in a single
    iteration of the scan. *)
Theorem unmatched_line_passes_through (extra : nat) (line : string)
  (rules : list HighlightRule) :
  line <> "" ->
  (forall rule, In rule rules -> regex_search line (pattern rule) = None) ->
  highlightAndPrintLine (1 + extra) line rules
  = Some [Plain line; Plain nl].
Proof.
  intros Hne Hnone.
  assert (F : find_earliest line rules = None).
  { unfold find_earliest. apply fold_consider_none. auto. }
  unfold highlightAndPrintLine. simpl.
  destruct line as [|a line]; [contradiction|]. simpl.
  unfold iteration. now rewrite F.
Qed.

Lemma unmatched_line_passes_through_witness :
  highlightAndPrintLine (1 + 0) "x = y;" cpp_rules
  = Some [Plain "x = y;"; Plain nl].
Proof.
  apply (unmatched_line_passes_through 0 "x = y;" cpp_rules).
  - discriminate.
  - intros rule [<-|[<-|[<-|[<-|[<-|[]]]]]]; vm_compute; reflexivity.
Defined.

(* ================================================================== *)
(** ** Nothing is missed *)
(* ================================================================== *)

Lemma or_else_none {A} (x y : option A) :
  or_else x y = None -> x = None /\ y = None.
Proof. destruct x; simpl; [discriminate | auto]. Qed.

Lemma eat_none {A} (p : ascii -> bool) (k : cursor -> option A)
  (c c' : cursor) :
  eat p k c = None -> step_to p c c' -> k c' = None.
Proof.
  unfold eat. intros H (a & s' & R & P & ->).
  now rewrite R, P in H.
Qed.

(** A round that consumes nothing ends where it started. *)
Lemma spans_no_progress (c c' : cursor) (w : string) :
  spans c c' w ->
  ~ String.length (rest c') < String.length (rest c) ->
  c' = c.
Proof.
  intros (R & I & P) H.
  assert (L : String.length w = 0).
  { apply (f_equal String.length) in R. rewrite length_append in R. lia. }
  apply length_zero_empty in L. subst w. simpl in *.
  destruct c, c'; simpl in *. subst. f_equal. lia.
Qed.

Section StarComplete.
Context {A : Type}.
Variable r : regex.
Variable body : (cursor -> option A) -> cursor -> option A.
Hypothesis body_complete :
  forall k c,
    body k c = None -> forall c', matches r c c' -> k c' = None.

Lemma star_iter_complete (k : cursor -> option A) (n : nat) :
  forall c,
    String.length (rest c) <= n ->
    star_iter body k n c = None ->
    forall c', matches (Star r) c c' -> k c' = None.
Proof.
  induction n as [|n IHn]; intros c Hn Hnone c' M;
    remember (Star r) as sr eqn:E; revert Hn Hnone;
    induction M as [ | | | | | | | | | | r0 c | r0 c c1 c2 M1 _ M2 IHM2 ];
    try discriminate; intros Hn Hnone.
  - exact Hnone.
  - injection E as ->.
    destruct (matches_spans _ _ _ M1) as [w Sp].
    assert (Ec : c1 = c) by (apply (spans_no_progress c c1 w Sp); lia).
    subst c1. now apply IHM2.
  - simpl in Hnone. now apply or_else_none in Hnone as [_ Hk].
  - injection E as ->. simpl in Hnone.
    apply or_else_none in Hnone as [Hb Hk].
    pose proof (body_complete _ _ Hb c1 M1) as Hc. simpl in Hc.
    destruct (Nat.ltb_spec (String.length (rest c1)) (String.length (rest c)))
      as [Lt|Ge].
    + apply (IHn c1); [lia | exact Hc | exact M2].
    + destruct (matches_spans _ _ _ M1) as [w Sp].
      assert (Ec : c1 = c) by (apply (spans_no_progress c c1 w Sp); lia).
      subst c1. apply IHM2; [reflexivity | exact IHn | exact Hn |].
      simpl. now rewrite Hb, Hk.
Qed.
End StarComplete.

(** When the matcher fails, the continuation fails at the end of every
    match of the pattern: the search order loses no match. *)
Lemma run_complete (r : regex) :
  forall A (k : cursor -> option A) c,
    run r k c = None -> forall c', matches r c c' -> k c' = None.
Proof.
  induction r as [ | a | | | cs | | | r1 IH1 r2 IH2 | r1 IH1 r2 IH2 | r IH ];
    intros A k c H c' M; simpl in H.
  - apply inv_eps in M. now subst.
  - inversion M; subst. now apply (eat_none _ k c c' H).
  - inversion M; subst. now apply (eat_none _ k c c' H).
  - inversion M; subst. now apply (eat_none _ k c c' H).
  - inversion M; subst. now apply (eat_none _ k c c' H).
  - apply inv_boundary in M as [-> B]. now rewrite B in H.
  - inversion M; subst.
    match goal with B : at_end _ = true |- _ => now rewrite B in H end.
  - apply inv_cat in M as (c1 & M1 & M2).
    apply (IH2 A k c1); [|exact M2].
    now apply (IH1 A (run r2 k) c).
  - apply or_else_none in H as [H1 H2].
    apply inv_alt in M as [M|M]; eauto.
  - apply (star_iter_complete r (run r) (IH A) k _ c (le_n _) H c' M).
Qed.

(** A cursor inside a text, after the part [pre] of it. *)
Lemma search_from_leftmost (r : regex) (s : string) :
  forall pos pv,
    (forall p l,
       search_from r pos pv s = Some (p, l) ->
       forall pre post c',
         s = (pre ++ post)%string ->
         pos + String.length pre < p ->
         ~ matches r (mkCursor (pos + String.length pre)
                        (last_char pre pv) post) c')
    /\ (search_from r pos pv s = None ->
        forall pre post c',
          s = (pre ++ post)%string ->
          ~ matches r (mkCursor (pos + String.length pre)
                         (last_char pre pv) post) c').
Proof.
  induction s as [|a s IH]; intros pos pv; simpl.
  - destruct (run r _ _) as [e|] eqn:E; split.
    + intros p l H. injection H as <- <-. intros; lia.
    + discriminate.
    + discriminate.
    + intros _ pre post c' Es M.
      destruct pre; [|discriminate]. simpl in *. subst post.
      rewrite Nat.add_0_r in M.
      pose proof (run_complete r _ _ _ E c' M). discriminate.
  - destruct (run r _ _) as [e|] eqn:E; split.
    + intros p l H. injection H as <- <-. intros; lia.
    + discriminate.
    + intros p l H pre post c' Es Lt M.
      destruct pre as [|b pre]; simpl in *.
      * subst post. rewrite Nat.add_0_r in M.
        pose proof (run_complete r _ _ _ E c' M). discriminate.
      * injection Es as <- ->.
        apply (proj1 (IH (S pos) (Some a)) p l H pre post c' eq_refl);
          [lia|].
        replace (S pos + String.length pre)
          with (pos + S (String.length pre)) by lia.
        exact M.
    + intros H pre post c' Es M.
      destruct pre as [|b pre]; simpl in *.
      * subst post. rewrite Nat.add_0_r in M.
        pose proof (run_complete r _ _ _ E c' M). discriminate.
      * injection Es as <- ->.
        apply (proj2 (IH (S pos) (Some a)) H pre post c' eq_refl).
        replace (S pos + String.length pre)
          with (pos + S (String.length pre)) by lia.
        exact M.
Qed.

(** X17: nothing is missed before a coloured chunk.  When an iteration
    of the scan keeps a match at index [p], no pattern of the rule set
    has a match that starts before [p] in [remaining]; and when it
    keeps none, no pattern has a match anywhere in [remaining], so that
    the text printed plain holds no match start of any rule. *)
Theorem no_match_before_the_earliest (remaining : string)
  (rules : list HighlightRule) (rule : HighlightRule)
  (pre post : string) (c' : cursor) :
  In rule rules ->
  remaining = (pre ++ post)%string ->
  match find_earliest remaining rules with
  | Some (p, _, _) => String.length pre < p
  | None => True
  end ->
  ~ matches (pattern rule)
      (mkCursor (String.length pre) (last_char pre None) post) c'.
Proof.
  intros Hin Er Hp M.
  apply In_nth_error in Hin as [j Hj].
  pose proof (search_from_leftmost (pattern rule) remaining 0 None)
    as [Lsome Lnone].
  fold (regex_search remaining (pattern rule)) in Lsome, Lnone.
  destruct (regex_search remaining (pattern rule)) as [[q m]|] eqn:Es.
  - destruct (find_earliest remaining rules) as [[[p l] code]|] eqn:F.
    + pose proof (kept_after_fold remaining rules [] None) as K.
      simpl in K. unfold find_earliest in F. rewrite F in K.
      destruct K as (k & A & _ & _ & _ & Hmin); [intros B []|].
      destruct (Hmin j rule q m Hj Es) as [Hle _].
      apply (Lsome q m eq_refl pre post c' Er); [simpl; lia | exact M].
    + unfold find_earliest in F. apply fold_consider_none in F as [_ F].
      apply nth_error_In in Hj. rewrite (F rule Hj) in Es. discriminate.
  - exact (Lnone eq_refl pre post c' Er M).
Qed.

Lemma no_match_before_the_earliest_witness :
  ~ matches (pattern (mkRule number magenta))
      (mkCursor (String.length " x =") (last_char " x =" None)
         " 42; // comment")
      (mkCursor 7 (Some "2"%char) "; // comment").
Proof.
  apply (no_match_before_the_earliest " x = 42; // comment" cpp_rules
           (mkRule number magenta) " x =" " 42; // comment").
  - simpl. tauto.
  - reflexivity.
  - vm_compute. lia.
Defined.

(** X18: what [regex_search] reports.  A reported match lies inside the
    text and is a match of the pattern at the reported place; no match
    of the pattern starts further left; and when nothing is reported
    the pattern has no match anywhere in the text. *)
Theorem regex_search_leftmost (s : string) (r : regex) :
  (forall p l,
     regex_search s r = Some (p, l) ->
     (exists pre w post,
        s = (pre ++ w ++ post)%string
        /\ String.length pre = p /\ String.length w = l
        /\ matches r (mkCursor p (last_char pre None) (w ++ post))
             (mkCursor (p + l) (last_char w (last_char pre None)) post))
     /\ forall pre post c',
          s = (pre ++ post)%string ->
          String.length pre < p ->
          ~ matches r (mkCursor (String.length pre) (last_char pre None) post)
              c')
  /\ (regex_search s r = None ->
      forall pre post c',
        s = (pre ++ post)%string ->
        ~ matches r (mkCursor (String.length pre) (last_char pre None) post)
            c').
Proof.
  destruct (search_from_leftmost r s 0 None) as [Lsome Lnone].
  fold (regex_search s r) in Lsome, Lnone. split.
  - intros p l H. split; [now apply regex_search_matches|].
    intros pre post c' Es Lt. now apply (Lsome p l H pre post c' Es).
  - intros H pre post c' Es. now apply (Lnone H pre post c' Es).
Qed.

Lemma regex_search_leftmost_witness :
  ~ matches (keyword_pattern ["in"; "int"])
      (mkCursor (String.length "pr") (last_char "pr" None) "int(int)")
      (mkCursor 5 (Some "t"%char) "(int)").
Proof.
  apply (proj2 (proj1 (regex_search_leftmost "print(int)"
                         (keyword_pattern ["in"; "int"]))
                  6 3 eq_refl) "pr" "int(int)").
  - reflexivity.
  - simpl. lia.
Defined.

(** X19: no empty chunk.  Under the rules of any extension, every chunk
    that [highlightAndPrintLine] prints carries at least one character:
    no colour is switched on and off around nothing. *)
Theorem catalog_chunks_not_empty (ext : string) (fuel : nat) (line : string)
  (out : list chunk) :
  highlightAndPrintLine fuel line (getHighlightRules ext) = Some out ->
  Forall (fun ch => chunk_text ch <> "") out.
Proof.
  unfold highlightAndPrintLine.
  destruct (scan fuel line (getHighlightRules ext)) as [o|] eqn:E;
    [|discriminate].
  intros H. injection H as <-. apply Forall_app. split.
  - apply scan_chunks in E. eapply Forall_impl; [|exact E].
    intros [t | code t]; simpl.
    + now intros [Hne _].
    + intros (rule & pre & remaining & p & l & Hin & _ & _ & Hs & ->).
      pose proof (catalog_min_len ext rule Hin) as Hm.
      apply regex_search_bounds in Hs as [Hb Hl].
      intros E0. apply (f_equal String.length) in E0.
      unfold substr in E0. rewrite length_substring in E0 by exact Hb.
      simpl in E0. lia.
  - constructor; [discriminate | constructor].
Qed.

Lemma catalog_chunks_not_empty_witness :
  Forall (fun ch => chunk_text ch <> "")
    [Plain "s = "; Colored orange py_string; Plain nl].
Proof.
  apply (catalog_chunks_not_empty "py" 1 py_line). vm_compute. reflexivity.
Defined.
